(** * kepler.gl table model: [src/utils/table-utils/kepler-table.js]

    A shallow embedding of the [KeplerTable] class and of the helpers exported
    next to it ([removeSuffixAndDelimiters], [findPointFieldPairs],
    [sortDatasetByColumn], [copyTable]), followed by the properties of the
    table model that the specification states.

    Conventions of the embedding:
    - JavaScript objects that are mutated or compared by identity (tables,
      datasets) live in a store, a finite map from locations to records; a
      method receives the location of [this].
    - Arrays are never mutated in place by this file ([updateColumnField]
      spreads before it assigns, [sortDatasetByColumn] slices before it
      sorts), so an array is a list value and sharing an array is equality.
    - An array of fields may have holes once [updateColumnField] wrote past its
      end, so it is a list of optional fields.
    - Strings are sequences of 8-bit characters; case mapping and white space
      are the ASCII ones.
    - Functions imported from modules whose source is not part of this file are
      members of an interface; nothing is assumed about them beyond their
      types unless a theorem says so. *)

From Stdlib Require Import Ascii String Sorted.
From stdpp Require Import base option list numbers strings gmap.

Local Open Scope Z_scope.

(** ** JavaScript strings *)

Module JsString.

Definition chars (s : string) : list ascii := list_ascii_of_string s.
Definition str (l : list ascii) : string := string_of_list_ascii l.

Definition code (c : ascii) : nat := nat_of_ascii c.

Definition is_upper (c : ascii) : bool :=
  (Nat.leb 65 (code c) && Nat.leb (code c) 90)%bool.

Definition lower_char (c : ascii) : ascii :=
  if is_upper c then ascii_of_nat (code c + 32) else c.

(** [String.prototype.toLowerCase] on ASCII text. *)
Definition toLowerCase (s : string) : string :=
  str (map lower_char (chars s)).

Fixpoint starts (p s : list ascii) : bool :=
  match p, s with
  | [], _ => true
  | a :: p', b :: s' => (Ascii.eqb a b && starts p' s')%bool
  | _ :: _, [] => false
  end.

(** [String.prototype.endsWith]. *)
Definition endsWith (s suffix : string) : bool :=
  starts (rev (chars suffix)) (rev (chars s)).

(** White space accepted by [String.prototype.trim], below code 128. *)
Definition is_space (c : ascii) : bool :=
  let n := code c in
  (Nat.eqb n 32 || (Nat.leb 9 n && Nat.leb n 13))%bool.

Fixpoint drop_spaces (l : list ascii) : list ascii :=
  match l with
  | c :: r => if is_space c then drop_spaces r else l
  | [] => []
  end.

(** [String.prototype.trim]. *)
Definition trim (s : string) : string :=
  str (rev (drop_spaces (rev (drop_spaces (chars s))))).

(** *** The three regular expressions of the file

    [new RegExp(source, flags)] is modelled for sources that are plain text:
    letters, digits, underscores and blanks, none of which is a
    regular-expression operator.  The same restriction on a replacement
    string excludes the [$] patterns of [String.prototype.replace]. *)

Definition is_plain (c : ascii) : bool :=
  let n := code c in
  ((Nat.leb 48 n && Nat.leb n 57) || (Nat.leb 65 n && Nat.leb n 90)
   || (Nat.leb 97 n && Nat.leb n 122) || Nat.eqb n 95 || Nat.eqb n 32)%bool.

Definition plain (s : string) : bool := forallb is_plain (chars s).

Definition starts_ci (p s : list ascii) : bool :=
  starts (map lower_char p) (map lower_char (firstn (length p) s)).

(** [s.replace(new RegExp(pat, 'ig'), '')] for a plain, non-empty [pat]:
    scan from the left; where [pat] matches without regard to case, drop
    the match and go on behind it.  [skip] counts the characters of a
    match that are still to be dropped. *)
Fixpoint remove_matches (pat : list ascii) (skip : nat) (s : list ascii)
  : list ascii :=
  match s with
  | [] => []
  | c :: r =>
      match skip with
      | S k => remove_matches pat k r
      | O =>
          if starts_ci pat s then remove_matches pat (Nat.pred (length pat)) r
          else c :: remove_matches pat O r
      end
  end.

(** The empty source matches the empty string everywhere, and replacing
    those matches by the empty string changes nothing. *)
Definition removeAllIgnoreCase (pat s : string) : string :=
  match chars pat with
  | [] => s
  | p => str (remove_matches p O (chars s))
  end.

Definition is_delimiter (c : ascii) : bool :=
  (Ascii.eqb c "_" || Ascii.eqb c "," || Ascii.eqb c ".")%bool.

(** [s.replace(/[_,.]+/g, ' ')]: every maximal run of delimiters becomes
    one blank.  [inrun] tells that the previous character was a delimiter. *)
Fixpoint blank_runs (inrun : bool) (s : list ascii) : list ascii :=
  match s with
  | [] => []
  | c :: r =>
      if is_delimiter c
      then (if inrun then blank_runs true r else " "%char :: blank_runs true r)
      else c :: blank_runs false r
  end.

Definition replaceDelimiters (s : string) : string :=
  str (blank_runs false (chars s)).

(** [s.replace(new RegExp(suffix + '$'), by)] for a plain [suffix]: the only
    place where the pattern can match is the end of [s]. *)
Definition replaceAtEnd (s suffix by_ : string) : string :=
  if endsWith s suffix
  then str (firstn (length (chars s) - length (chars suffix))%nat (chars s)) +:+ by_
  else s.

End JsString.

(** ** Results of running JavaScript

    [Ret] is normal completion, [Raise] an exception that is thrown,
    [Unmodelled] marks a run that leaves the fragment of JavaScript modelled
    here: a regular expression whose source is not plain text, or a location
    that holds no object. *)

Inductive jsError : Set := TypeError.

Inductive result (A : Type) : Type :=
  | Ret (a : A)
  | Raise (e : jsError)
  | Unmodelled.
Arguments Ret {A} a.
Arguments Raise {A} e.
Arguments Unmodelled {A}.

#[global] Instance result_ret : MRet result := λ A a, Ret a.

#[global] Instance result_bind : MBind result := λ A B k r,
  match r with
  | Ret a => k a
  | Raise e => Raise e
  | Unmodelled => Unmodelled
  end.

(** ** JavaScript values and arrays *)

(** A cell of a row.  Numbers are integers here; no property of the table
    model stated below depends on arithmetic. *)
Inductive value : Set :=
  | VUndefined
  | VNull
  | VBool (b : bool)
  | VNum (n : Z)
  | VStr (s : string).

#[global] Instance value_eq_dec : EqDecision value.
Proof. solve_decision. Defined.

Definition row : Set := list value.

(** [Array.prototype.findIndex]: the first index whose element satisfies
    [p], or [-1]. *)
Fixpoint findIndexFrom {A : Type} (p : A → bool) (i : Z) (l : list A) : Z :=
  match l with
  | [] => -1
  | x :: r => if p x then i else findIndexFrom p (i + 1) r
  end.

Definition findIndex {A : Type} (p : A → bool) (l : list A) : Z :=
  findIndexFrom p 0 l.

(** [arr[i]] for a number [i]: [None] stands for [undefined]. *)
Definition at_ {A : Type} (l : list A) (i : Z) : option A :=
  if decide (0 ≤ i) then l !! Z.to_nat i else None.

(** [Array.prototype.sort] with a comparator, which is stable: [x] goes in
    front of the first element on which the comparator is not positive, so
    elements that compare equal keep their order. *)
Fixpoint insertBy {A : Type} (cmp : A → A → Z) (x : A) (l : list A) : list A :=
  match l with
  | [] => [x]
  | y :: r => if decide (cmp x y ≤ 0) then x :: y :: r else y :: insertBy cmp x r
  end.

Definition stableSort {A : Type} (cmp : A → A → Z) (l : list A) : list A :=
  foldr (insertBy cmp) [] l.

(** Truthiness of a string-valued property that may be missing. *)
Definition truthy (v : option string) : bool :=
  match v with
  | Some s => negb (String.eqb s "")
  | None => false
  end.

(** ** Data model *)

Module Field.
(** A column: the descriptor given at construction, with the position and
    the accessor added by the constructor (lines 75-85).  The accessor
    receives [allData[i]], which is [undefined] out of range.  It is a total
    function here: what an accessor does with a row is modelled, not that
    the accessor bound by the constructor throws when it is given
    [undefined]; statements about the value of a cell take the row index in
    range. *)
Record t : Type := mk {
  name : string;
  type : string;
  format : string;
  fieldIdx : nat;
  valueAccessor : option row → value
}.
End Field.

Module FieldInput.
(** A raw field descriptor of [data.fields]. *)
Record t : Set := mk {
  name : string;
  type : string;
  format : string
}.
End FieldInput.

Module Filter.
(** Modelled from the spec: a filter descriptor "identifies target field(s),
    a filter type ..., a value/range, a gpu eligibility flag, and an id"
    (section 3).  The file reads [id] and [gpu]; the tables and fields that a
    filter targets, its range and whether its domain is fixed are read by the
    filter utilities, which are not part of the file. *)
Record t : Set := mk {
  id : string;
  dataId : list string;
  fieldIdx : list Z;
  fixedDomain : bool;
  gpu : bool;
  value : Z * Z
}.
End Filter.

#[global] Instance filter_eq_dec : EqDecision Filter.t.
Proof. solve_decision. Defined.

Module FilterRecord.
(** Modelled from the spec: the filter record classifies the active filters
    into [dynamicDomain] and [cpu], the two groups that the file reads, and
    their complements (section 3). *)
Record t : Set := mk {
  dynamicDomain : list Filter.t;
  fixedDomain : list Filter.t;
  cpu : list Filter.t;
  gpu : list Filter.t
}.
End FilterRecord.

#[global] Instance filter_record_eq_dec : EqDecision FilterRecord.t.
Proof. solve_decision. Defined.

Module FilterOpt.
(** The [opt] argument of [filterTable]; a missing property is [false]. *)
Record t : Set := mk {
  cpuOnly : bool;
  ignoreDomain : bool
}.
Definition empty : t := mk false false.
End FilterOpt.

Module PointPair.
Record coord : Set := mkCoord { fieldIdx : nat; value : string }.
Record t : Set := mk {
  defaultName : string;
  lat : coord;
  lng : coord;
  suffix : string * string
}.
End PointPair.

(** [sortOrder] of a dataset: missing, [null], or an array of row indexes. *)
Inductive sortOrderValue : Set :=
  | SortOrderMissing
  | SortOrderNull
  | SortOrderIndexes (l : list nat).

Module Table.
Section Def.
(** [G] is the type of GPU filter parameters, [M] the type of the opaque
    attributes [color] and [metadata]. *)
Context {G M : Type}.

Record t : Type := mk {
  id : string;
  label : string;
  color : M;
  metadata : M;
  allData : list row;
  allIndexes : list nat;
  filteredIndex : list nat;
  filteredIndexForDomain : list nat;
  fieldPairs : list PointPair.t;
  fields : list (option Field.t);
  gpuFilter : G;
  filterRecord : option FilterRecord.t;
  filteredIdxCPU : option (list nat);
  filterRecordCPU : option FilterRecord.t;
  sortColumn : option (list (string * option string));
  sortOrder : sortOrderValue
}.

(** Assignments [this.x = v]. *)
Definition set_fields (v : list (option Field.t)) (d : t) : t :=
  mk (id d) (label d) (color d) (metadata d) (allData d) (allIndexes d)
     (filteredIndex d) (filteredIndexForDomain d) (fieldPairs d) v
     (gpuFilter d) (filterRecord d) (filteredIdxCPU d) (filterRecordCPU d)
     (sortColumn d) (sortOrder d).
Definition set_filteredIndex (v : list nat) (d : t) : t :=
  mk (id d) (label d) (color d) (metadata d) (allData d) (allIndexes d)
     v (filteredIndexForDomain d) (fieldPairs d) (fields d)
     (gpuFilter d) (filterRecord d) (filteredIdxCPU d) (filterRecordCPU d)
     (sortColumn d) (sortOrder d).
Definition set_filteredIndexForDomain (v : list nat) (d : t) : t :=
  mk (id d) (label d) (color d) (metadata d) (allData d) (allIndexes d)
     (filteredIndex d) v (fieldPairs d) (fields d)
     (gpuFilter d) (filterRecord d) (filteredIdxCPU d) (filterRecordCPU d)
     (sortColumn d) (sortOrder d).
Definition set_gpuFilter (v : G) (d : t) : t :=
  mk (id d) (label d) (color d) (metadata d) (allData d) (allIndexes d)
     (filteredIndex d) (filteredIndexForDomain d) (fieldPairs d) (fields d)
     v (filterRecord d) (filteredIdxCPU d) (filterRecordCPU d)
     (sortColumn d) (sortOrder d).
Definition set_filterRecord (v : option FilterRecord.t) (d : t) : t :=
  mk (id d) (label d) (color d) (metadata d) (allData d) (allIndexes d)
     (filteredIndex d) (filteredIndexForDomain d) (fieldPairs d) (fields d)
     (gpuFilter d) v (filteredIdxCPU d) (filterRecordCPU d)
     (sortColumn d) (sortOrder d).
Definition set_filteredIdxCPU (v : option (list nat)) (d : t) : t :=
  mk (id d) (label d) (color d) (metadata d) (allData d) (allIndexes d)
     (filteredIndex d) (filteredIndexForDomain d) (fieldPairs d) (fields d)
     (gpuFilter d) (filterRecord d) v (filterRecordCPU d)
     (sortColumn d) (sortOrder d).
Definition set_filterRecordCPU (v : option FilterRecord.t) (d : t) : t :=
  mk (id d) (label d) (color d) (metadata d) (allData d) (allIndexes d)
     (filteredIndex d) (filteredIndexForDomain d) (fieldPairs d) (fields d)
     (gpuFilter d) (filterRecord d) (filteredIdxCPU d) v
     (sortColumn d) (sortOrder d).
Definition set_sortColumn (v : option (list (string * option string))) (d : t) : t :=
  mk (id d) (label d) (color d) (metadata d) (allData d) (allIndexes d)
     (filteredIndex d) (filteredIndexForDomain d) (fieldPairs d) (fields d)
     (gpuFilter d) (filterRecord d) (filteredIdxCPU d) (filterRecordCPU d)
     v (sortOrder d).
Definition set_sortOrder (v : sortOrderValue) (d : t) : t :=
  mk (id d) (label d) (color d) (metadata d) (allData d) (allIndexes d)
     (filteredIndex d) (filteredIndexForDomain d) (fieldPairs d) (fields d)
     (gpuFilter d) (filterRecord d) (filteredIdxCPU d) (filterRecordCPU d)
     (sortColumn d) v.
End Def.
Arguments t : clear implicits.
End Table.

(** ** Imported constants and functions

    The modules below are imported by the file and are not part of it. *)

(** [constants/default-settings].  An object used as a table of named
    constants is a lookup function; [None] is a missing property. *)
Class Settings : Type := {
  TRIP_POINT_FIELDS : list (string * string);
  SORT_ORDER : string → option string;
  SCALE_TYPES : string → option string;
  ALL_FIELD_TYPES : string → option string
}.

(** [utils/data-utils] and [d3-array].  A comparator returns the sign that
    [Array.prototype.sort] reads from it, [NaN] counting as [0]. *)
Class DataUtils : Type := {
  maybeToDate : bool → nat → string → option row → value;
  getSortingFunction : string → value → value → Z;
  ascending : value → value → Z;
  descending : value → value → Z
}.

(** [utils/data-scale-utils]. *)
Class ScaleUtils : Type := {
  getOrdinalDomain : list row → (option row → value) → list value;
  getQuantileDomain : list nat → (nat → value) → (value → value → Z) → list value;
  getLogDomain : list nat → (nat → value) → list value;
  getLinearDomain : list nat → (nat → value) → list value
}.

Module FilterResult.
(** What [filterDataByFilterTypes] returns: each index array is present
    only when its group of filters was given. *)
Record t : Set := mk {
  filteredIndexForDomain : option (list nat);
  filteredIndex : option (list nat)
}.
(** [{}] *)
Definition empty : t := mk None None.
End FilterResult.

Module Changed.
(** What [diffFilters] returns, as far as [filterTable] reads it: the
    truthiness of the entries [dynamicDomain] and [cpu]. *)
Record t : Set := mk {
  dynamicDomain : bool;
  cpu : bool
}.
End Changed.

(** [utils/filter-utils] and [utils/gpu-filter-utils], over the type [G] of
    GPU filter parameters and the type [L] of layers. *)
Class FilterUtils (G L : Type) : Type := {
  getGpuFilterProps : list Filter.t → string → list (option Field.t) → G;
  getDatasetFieldIndexForFilter : string → Filter.t → Z;
  getFilterRecord : string → list Filter.t → FilterOpt.t → FilterRecord.t;
  diffFilters : FilterRecord.t → option FilterRecord.t → Changed.t;
  getFilterFunction : option Field.t → string → Filter.t → L → row → bool;
  filterDataByFilterTypes :
    option (list Filter.t) → option (list Filter.t) →
    gmap string (row → bool) → list row → FilterResult.t
}.

(** ** Helpers exported by the file *)

(** [removeSuffixAndDelimiters(layerName, suffix)], lines 368-373. *)
Definition removeSuffixAndDelimiters (layerName suffix : string) : result string :=
  if JsString.plain suffix
  then Ret (JsString.trim
              (JsString.replaceDelimiters
                 (JsString.removeAllIgnoreCase suffix layerName)))
  else Unmodelled.

(** The loop over the suffix pairs, lines 388-416, for the field [fieldName]
    at position [idx]: [Ret (Some p)] when the body pushes [p] and returns,
    [Ret None] when the loop runs to its end. *)
Fixpoint matchSuffixPairs (suffixPairs : list (string * string))
    (fields : list Field.t) (allNames : list string)
    (fieldName : string) (idx : nat) : result (option PointPair.t) :=
  match suffixPairs with
  | [] => Ret None
  | suffixPair :: later =>
      if JsString.endsWith fieldName suffixPair.1 then
        if (JsString.plain suffixPair.1 && JsString.plain suffixPair.2)%bool then
          let partner := JsString.replaceAtEnd fieldName suffixPair.1 suffixPair.2 in
          let partnerIdx := findIndex (String.eqb partner) allNames in
          if decide (partnerIdx > -1) then
            defaultName ← removeSuffixAndDelimiters fieldName suffixPair.1;
            match fields !! idx, at_ fields partnerIdx with
            | Some f, Some g =>
                Ret (Some {| PointPair.defaultName := defaultName;
                             PointPair.lat := PointPair.mkCoord idx (Field.name f);
                             PointPair.lng :=
                               PointPair.mkCoord (Z.to_nat partnerIdx) (Field.name g);
                             PointPair.suffix := suffixPair |})
            | _, _ => Raise TypeError
            end
          else matchSuffixPairs later fields allNames fieldName idx
        else Unmodelled
      else matchSuffixPairs later fields allNames fieldName idx
  end.

(** The reducer of [allNames.reduce], lines 386-418. *)
Definition pushPointPair `{Settings} (fields : list Field.t)
    (allNames : list string) (carry : result (list PointPair.t))
    (entry : nat * string) : result (list PointPair.t) :=
  c ← carry;
  found ← matchSuffixPairs TRIP_POINT_FIELDS fields allNames entry.2 entry.1;
  Ret (match found with Some p => c ++ [p] | None => c end).

(** [findPointFieldPairs(fields)], lines 382-419. *)
Definition findPointFieldPairs `{Settings} (fields : list Field.t)
  : result (list PointPair.t) :=
  let allNames := map (λ f, JsString.toLowerCase (Field.name f)) fields in
  fold_left (pushPointPair fields allNames)
            (zip (seq 0 (length allNames)) allNames) (Ret []).

(** ** The console *)

(** The module ['global/console'] exports the console object itself: what an
    import by name gets from it is a property of that object.  The console
    object has its methods as properties and no property [console]; [None]
    is a property that is missing. *)
Definition globalConsoleExport (name : string) : option unit :=
  if bool_decide (name ∈ ["log"; "info"; "warn"; "error"; "debug"; "trace"])
  then Some ()
  else None.

(** Line 21, [import {console as Console} from 'global/console']: the
    binding [Console] is the export named [console], which is [undefined]. *)
Definition Console : option unit := globalConsoleExport "console".

(** ** The store and the computations over it *)

Definition loc : Set := nat.

Module World.
Section Def.
Context {G M : Type}.
(** The objects of the program, and what was written to the console. *)
Record t : Type := mk {
  heap : gmap loc (Table.t G M);
  console : list string
}.
End Def.
Arguments t : clear implicits.
End World.

(** A computation returns a value and the next store, throws, or is not
    modelled. *)
Definition Js (W A : Type) : Type := W → result (A * W).

#[global] Instance Js_ret {W} : MRet (Js W) := λ A a w, Ret (a, w).

#[global] Instance Js_bind {W} : MBind (Js W) := λ A B k m w,
  match m w with
  | Ret (a, w') => k a w'
  | Raise e => Raise e
  | Unmodelled => Unmodelled
  end.

Section Store.
Context {G M : Type}.
Abbreviation W := (World.t G M).

Definition lift {A : Type} (r : result A) : Js W A := λ w,
  match r with
  | Ret a => Ret (a, w)
  | Raise e => Raise e
  | Unmodelled => Unmodelled
  end.

(** Read the object at [l]. *)
Definition load (l : loc) : Js W (Table.t G M) := λ w,
  match World.heap w !! l with
  | Some d => Ret (d, w)
  | None => Unmodelled
  end.

(** [obj.x = v] on the object at [l], [upd] being the setter of [x]. *)
Definition assign (l : loc) (upd : Table.t G M → Table.t G M) : Js W unit := λ w,
  match World.heap w !! l with
  | Some d => Ret ((), World.mk (<[l := upd d]> (World.heap w)) (World.console w))
  | None => Unmodelled
  end.

(** A new object, at a location that holds none. *)
Definition alloc (d : Table.t G M) : Js W loc := λ w,
  let l := fresh (dom (World.heap w)) in
  Ret (l, World.mk (<[l := d]> (World.heap w)) (World.console w)).

(** [Console.error(msg)], with the binding [Console] of line 21.  Reading
    [error] from [undefined] throws; a console that is there takes the
    message. *)
Definition consoleError (msg : string) : Js W unit := λ w,
  match Console with
  | Some _ => Ret ((), World.mk (World.heap w) (World.console w ++ [msg]))
  | None => Raise TypeError
  end.
End Store.

(** ** The class [KeplerTable] *)

Module Info.
(** The [info] argument of the constructor; [None] is a missing property. *)
Record t : Set := mk {
  id : option string;
  label : option string
}.
Definition empty : t := mk None None.
End Info.

Module Data.
(** The [data] argument of the constructor. *)
Record t : Set := mk {
  fields : list FieldInput.t;
  rows : list row
}.
End Data.

(** [this.fields.find(fd => fd[FID_KEY] === columnName)], line 107.  Reading
    [name] from a slot that holds no field throws. *)
Fixpoint findField (columnName : string) (fields : list (option Field.t))
  : result (option Field.t) :=
  match fields with
  | [] => Ret None
  | None :: _ => Raise TypeError
  | Some fd :: later =>
      if String.eqb (Field.name fd) columnName then Ret (Some fd)
      else findField columnName later
  end.

(** [fields.findIndex(fd => fd.name === columnName)], lines 117 and 430. *)
Fixpoint findFieldIndexFrom (columnName : string) (i : Z)
    (fields : list (option Field.t)) : result Z :=
  match fields with
  | [] => Ret (-1)
  | None :: _ => Raise TypeError
  | Some fd :: later =>
      if String.eqb (Field.name fd) columnName then Ret i
      else findFieldIndexFrom columnName (i + 1) later
  end.

Definition findFieldIndex (columnName : string) (fields : list (option Field.t))
  : result Z :=
  findFieldIndexFrom columnName 0 fields.

(** The largest index of an array element, [2^32 - 2]. *)
Definition maxArrayIndex : Z := 4294967294.

(** [Object.assign([...fields], {[fieldIdx]: newField})], line 136.  Inside
    the array the slot is replaced; at or past its end, up to the largest
    array index, the array grows, the slots in between holding nothing; a
    negative [fieldIdx], or one above the largest array index, names a
    property that is no element, and the elements stay as they are. *)
Definition assignSlot (fields : list (option Field.t)) (fieldIdx : Z)
    (newField : Field.t) : list (option Field.t) :=
  if decide (fieldIdx < 0) then fields
  else
    let i := Z.to_nat fieldIdx in
    if decide (i < length fields)%nat then <[i := Some newField]> fields
    else if decide (fieldIdx ≤ maxArrayIndex) then
      fields ++ replicate (i - length fields) None ++ [Some newField]
    else fields.

Section KeplerTable.
Context {G M L : Type}.
Context `{Settings, DataUtils, ScaleUtils, FilterUtils G L}.
Abbreviation W := (World.t G M).

(** [new KeplerTable({info, data, color, metadata})], lines 57-100.
    [hashId] is what [generateHashId(4)] returns. *)
Definition constructor (hashId : string) (info : option Info.t) (data : Data.t)
    (color metadata : M) : Js W loc :=
  let allData := Data.rows data in
  let info' := default Info.empty info in
  let datasetInfo_id := default hashId (Info.id info') in
  let datasetInfo_label := default "new dataset" (Info.label info') in
  let dataId := datasetInfo_id in
  let fields :=
    imap (λ i f,
            {| Field.name := FieldInput.name f;
               Field.type := FieldInput.type f;
               Field.format := FieldInput.format f;
               Field.fieldIdx := i;
               Field.valueAccessor :=
                 maybeToDate
                   (bool_decide (Some (FieldInput.type f) = ALL_FIELD_TYPES "timestamp"))
                   i (FieldInput.format f) |})
         (Data.fields data) in
  let allIndexes := seq 0 (length allData) in
  fieldPairs ← lift (findPointFieldPairs fields);
  alloc {| Table.id := datasetInfo_id;
           Table.label := datasetInfo_label;
           Table.color := color;
           Table.metadata := metadata;
           Table.allData := allData;
           Table.allIndexes := allIndexes;
           Table.filteredIndex := allIndexes;
           Table.filteredIndexForDomain := allIndexes;
           Table.fieldPairs := fieldPairs;
           Table.fields := Some <$> fields;
           Table.gpuFilter := getGpuFilterProps [] dataId (Some <$> fields);
           Table.filterRecord := None;
           Table.filteredIdxCPU := None;
           Table.filterRecordCPU := None;
           Table.sortColumn := None;
           Table.sortOrder := SortOrderMissing |}.

(** [_assetField(fieldName, condition)], lines 359-363. *)
Definition _assetField (this : loc) (fieldName : string) (condition : bool)
  : Js W unit :=
  if negb condition then
    d ← load this;
    consoleError (fieldName +:+ " doesnt exist in dataset " +:+ Table.id d)
  else mret ().

(** [getColumnField(columnName)], lines 106-110; [None] is [undefined]. *)
Definition getColumnField (this : loc) (columnName : string)
  : Js W (option Field.t) :=
  d ← load this;
  field ← lift (findField columnName (Table.fields d));
  _ ← _assetField this columnName (bool_decide (is_Some field));
  mret field.

(** [getColumnFieldIdx(columnName)], lines 116-120. *)
Definition getColumnFieldIdx (this : loc) (columnName : string) : Js W Z :=
  d ← load this;
  fieldIdx ← lift (findFieldIndex columnName (Table.fields d));
  _ ← _assetField this columnName (bool_decide (fieldIdx > -1));
  mret fieldIdx.

(** [getValue(columnName, rowIdx)], lines 125-128. *)
Definition getValue (this : loc) (columnName : string) (rowIdx : Z)
  : Js W value :=
  field ← getColumnField this columnName;
  match field with
  | Some fd =>
      d ← load this;
      mret (Field.valueAccessor fd (at_ (Table.allData d) rowIdx))
  | None => mret VNull
  end.

(** [updateColumnField(fieldIdx, newField)], lines 135-137. *)
Definition updateColumnField (this : loc) (fieldIdx : Z) (newField : Field.t)
  : Js W unit :=
  d ← load this;
  assign this (Table.set_fields (assignSlot (Table.fields d) fieldIdx newField)).

(** The reducer that builds [filterFuncs], lines 206-214.  [field] is [None]
    for [null] and for [undefined]. *)
Definition addFilterFunc (d : Table.t G M) (layers : L)
    (acc : gmap string (row → bool)) (filter : Filter.t)
  : gmap string (row → bool) :=
  let fieldIndex := getDatasetFieldIndexForFilter (Table.id d) filter in
  let field :=
    if decide (fieldIndex ≠ -1) then mjoin (at_ (Table.fields d) fieldIndex)
    else None in
  <[Filter.id filter := getFilterFunction field (Table.id d) filter layers]> acc.

(** The filter result computed in lines 193-220 for a non-empty filter list,
    from the receiver [d] as it was when [filterTable] was entered. *)
Definition computeFilterResult (d : Table.t G M) (filters : list Filter.t)
    (layers : L) (filterRecord : FilterRecord.t) : FilterResult.t :=
  let changedFilters := diffFilters filterRecord (Table.filterRecord d) in
  let shouldCalDomain := Changed.dynamicDomain changedFilters in
  let shouldCalIndex := Changed.cpu changedFilters in
  if (shouldCalDomain || shouldCalIndex)%bool then
    let dynamicDomainFilters :=
      if shouldCalDomain then Some (FilterRecord.dynamicDomain filterRecord)
      else None in
    let cpuFilters :=
      if shouldCalIndex then Some (FilterRecord.cpu filterRecord) else None in
    let filterFuncs := fold_left (addFilterFunc d layers) filters ∅ in
    filterDataByFilterTypes dynamicDomainFilters cpuFilters filterFuncs
                            (Table.allData d)
  else FilterResult.empty.

(** [filterTable(filters, layers, opt)], lines 176-231. *)
Definition filterTable (this : loc) (filters : list Filter.t) (layers : L)
    (opt : option FilterOpt.t) : Js W loc :=
  d ← load this;
  let dataId := Table.id d in
  let fields := Table.fields d in
  let filterRecord := getFilterRecord dataId filters (default FilterOpt.empty opt) in
  _ ← assign this (Table.set_filterRecord (Some filterRecord));
  _ ← assign this (Table.set_gpuFilter (getGpuFilterProps filters dataId fields));
  if decide (length filters = 0%nat) then
    _ ← assign this (λ t, Table.set_filteredIndex (Table.allIndexes t) t);
    _ ← assign this (λ t, Table.set_filteredIndexForDomain (Table.allIndexes t) t);
    mret this
  else
    let filterResult := computeFilterResult d filters layers filterRecord in
    _ ← assign this (λ t,
          Table.set_filteredIndex
            (default (Table.filteredIndexForDomain t)
                     (FilterResult.filteredIndexForDomain filterResult)) t);
    _ ← assign this (λ t,
          Table.set_filteredIndexForDomain
            (default (Table.filteredIndex t)
                     (FilterResult.filteredIndex filterResult)) t);
    mret this.

(** [copyTable(original)], lines 459-461: a new object with the prototype
    and the own properties of [original]. *)
Definition copyTable (original : loc) : Js W loc :=
  d ← load original;
  alloc d.

(** [filterTableCPU(filters, layers)], lines 238-272. *)
Definition filterTableCPU (this : loc) (filters : list Filter.t) (layers : L)
  : Js W loc :=
  let opt := {| FilterOpt.cpuOnly := true; FilterOpt.ignoreDomain := true |} in
  if decide (length filters = 0%nat) then
    _ ← assign this (λ t, Table.set_filteredIdxCPU (Some (Table.allIndexes t)) t);
    _ ← assign this (λ t,
          Table.set_filterRecordCPU (Some (getFilterRecord (Table.id t) filters opt)) t);
    mret this
  else if negb (existsb Filter.gpu filters) then
    _ ← assign this (λ t, Table.set_filteredIdxCPU (Some (Table.filteredIndex t)) t);
    _ ← assign this (λ t,
          Table.set_filterRecordCPU (Some (getFilterRecord (Table.id t) filters opt)) t);
    mret this
  else
    copied ← copyTable this;
    d ← load this;
    _ ← assign copied (Table.set_filterRecord (Table.filterRecordCPU d));
    _ ← assign copied (Table.set_filteredIndex (default [] (Table.filteredIdxCPU d)));
    filtered ← filterTable copied filters layers (Some opt);
    f ← load filtered;
    _ ← assign this (Table.set_filteredIdxCPU (Some (Table.filteredIndex f)));
    f' ← load filtered;
    _ ← assign this (Table.set_filterRecordCPU (Table.filterRecord f'));
    mret filtered.

(** [getColumnLayerDomain(field, scaleType)], lines 308-339; [None] is
    [null]. *)
Definition getColumnLayerDomain (this : loc) (field : Field.t)
    (scaleType : string) : Js W (option (list value)) :=
  d ← load this;
  let allData := Table.allData d in
  let filteredIndexForDomain := Table.filteredIndexForDomain d in
  if negb (truthy (SCALE_TYPES scaleType)) then
    _ ← consoleError ("scale type " +:+ scaleType +:+ " not supported");
    mret None
  else
    let valueAccessor := Field.valueAccessor field in
    let indexValueAccessor := λ i : nat, valueAccessor (allData !! i) in
    let sortFunction := getSortingFunction (Field.type field) in
    let is_case (key : string) := bool_decide (Some scaleType = SCALE_TYPES key) in
    if (is_case "ordinal" || is_case "point")%bool then
      mret (Some (getOrdinalDomain allData valueAccessor))
    else if is_case "quantile" then
      mret (Some (getQuantileDomain filteredIndexForDomain indexValueAccessor
                                     sortFunction))
    else if is_case "log" then
      mret (Some (getLogDomain filteredIndexForDomain indexValueAccessor))
    else
      mret (Some (getLinearDomain filteredIndexForDomain indexValueAccessor)).

(** ** [sortDatasetByColumn] *)

(** [allData[a][fieldIndex]] inside the comparator, line 448. *)
Definition sortKey (allData : list row) (fieldIndex : Z) (a : nat) : result value :=
  match allData !! a with
  | Some r => Ret (default VUndefined (at_ r fieldIndex))
  | None => Raise TypeError
  end.

Fixpoint sortKeys (allData : list row) (fieldIndex : Z) (l : list nat)
  : result (list (nat * value)) :=
  match l with
  | [] => Ret []
  | a :: r =>
      k ← sortKey allData fieldIndex a;
      ks ← sortKeys allData fieldIndex r;
      Ret ((a, k) :: ks)
  end.

(** [allIndexes.slice().sort((a, b) => sortFunction(..a.., ..b..))], lines
    446-448.  The comparator is not called on fewer than two elements;
    otherwise it reads the cell of every element.  The sort is stable, which
    fixes the result when the comparator is a total preorder; [stableSort] is
    that result. *)
Definition sortIndexes (sortFunction : value → value → Z) (allData : list row)
    (fieldIndex : Z) (allIndexes : list nat) : result (list nat) :=
  if decide (length allIndexes < 2)%nat then Ret allIndexes
  else
    keyed ← sortKeys allData fieldIndex allIndexes;
    Ret (fst <$> stableSort (λ x y, sortFunction x.2 y.2) keyed).

(** [sortDatasetByColumn(dataset, column, mode)], lines 428-457.  The
    object spread makes a new object with the own properties of [dataset]. *)
Definition sortDatasetByColumn (dataset : loc) (column mode : string) : Js W loc :=
  d ← load dataset;
  let allIndexes := Table.allIndexes d in
  let fields := Table.fields d in
  let allData := Table.allData d in
  fieldIndex ← lift (findFieldIndex column fields);
  if decide (fieldIndex < 0) then mret dataset
  else
    let sortBy :=
      if truthy (SORT_ORDER mode) then SORT_ORDER mode else SORT_ORDER "ASCENDING" in
    if decide (sortBy = SORT_ORDER "UNSORT") then
      alloc (Table.set_sortOrder SortOrderNull (Table.set_sortColumn (Some []) d))
    else
      let sortFunction :=
        if decide (sortBy = SORT_ORDER "ASCENDING") then ascending else descending in
      sortOrder ← lift (sortIndexes sortFunction allData fieldIndex allIndexes);
      alloc (Table.set_sortOrder (SortOrderIndexes sortOrder)
               (Table.set_sortColumn (Some [(column, sortBy)]) d)).

End KeplerTable.

(** ** Notions used in the statements *)

(** A suffix pair matches a field when the field name ends with the first
    suffix and the name with the second suffix in its place is a field name:
    the two tests of lines 390 and 396. *)
Definition suffixPairMatches (allNames : list string) (fieldName : string)
    (suffixPair : string * string) : bool :=
  (JsString.endsWith fieldName suffixPair.1
   && bool_decide
        (findIndex (String.eqb (JsString.replaceAtEnd fieldName suffixPair.1 suffixPair.2))
                   allNames > -1))%bool.

Definition plainPair (suffixPair : string * string) : bool :=
  (JsString.plain suffixPair.1 && JsString.plain suffixPair.2)%bool.

(** Every slot of the array holds a field. *)
Definition dense (fields : list (option Field.t)) : Prop :=
  Forall is_Some fields.

(** No field of the array is named [columnName]. *)
Definition unnamed (columnName : string) (fields : list (option Field.t)) : Prop :=
  ∀ fd, Some fd ∈ fields → Field.name fd ≠ columnName.

Section Notions.
Context {G M L : Type}.
Context `{FilterUtils G L}.

(** [allIndexes] is the ascending sequence of all row indexes, as the
    constructor makes it. *)
Definition canonical (d : Table.t G M) : Prop :=
  Table.allIndexes d = seq 0 (length (Table.allData d)).

(** The receiver after [filterTable] with an empty filter list. *)
Definition unfiltered (opt : option FilterOpt.t) (d : Table.t G M) : Table.t G M :=
  Table.set_filteredIndexForDomain (Table.allIndexes d)
    (Table.set_filteredIndex (Table.allIndexes d)
       (Table.set_gpuFilter (getGpuFilterProps [] (Table.id d) (Table.fields d))
          (Table.set_filterRecord
             (Some (getFilterRecord (Table.id d) [] (default FilterOpt.empty opt)))
             d))).

(** The receiver after [filterTable] with a non-empty filter list: the two
    index assignments of lines 222-223 in their order, the second reading the
    [filteredIndex] that the first has just written. *)
Definition refiltered (filters : list Filter.t) (layers : L)
    (opt : option FilterOpt.t) (d : Table.t G M) : Table.t G M :=
  let filterRecord :=
    getFilterRecord (Table.id d) filters (default FilterOpt.empty opt) in
  let filterResult := computeFilterResult d filters layers filterRecord in
  let d1 :=
    Table.set_gpuFilter (getGpuFilterProps filters (Table.id d) (Table.fields d))
      (Table.set_filterRecord (Some filterRecord) d) in
  let d2 :=
    Table.set_filteredIndex
      (default (Table.filteredIndexForDomain d1)
               (FilterResult.filteredIndexForDomain filterResult)) d1 in
  Table.set_filteredIndexForDomain
    (default (Table.filteredIndex d2) (FilterResult.filteredIndex filterResult)) d2.

(** A sequence of [filterTable] calls on one table. *)
Fixpoint filterTableCalls (this : loc)
    (calls : list (list Filter.t * L * option FilterOpt.t)) : Js (World.t G M) unit :=
  match calls with
  | [] => mret ()
  | (filters, layers, opt) :: later =>
      _ ← filterTable this filters layers opt;
      filterTableCalls this later
  end.

(** The options that [filterTableCPU] passes to [filterTable], lines 239-242. *)
Definition cpuOptions : FilterOpt.t :=
  {| FilterOpt.cpuOnly := true; FilterOpt.ignoreDomain := true |}.

(** The copy that [filterTableCPU] makes of its receiver [d] and then
    filters, lines 261-266. *)
Definition shadowCopy (filters : list Filter.t) (layers : L) (d : Table.t G M)
  : Table.t G M :=
  refiltered filters layers (Some cpuOptions)
    (Table.set_filteredIndex (default [] (Table.filteredIdxCPU d))
       (Table.set_filterRecord (Table.filterRecordCPU d) d)).

(** The receiver [d] with the two cache fields taken from the filtered copy
    [c], lines 268-269. *)
Definition withCpuCache (c d : Table.t G M) : Table.t G M :=
  Table.set_filterRecordCPU (Table.filterRecord c)
    (Table.set_filteredIdxCPU (Some (Table.filteredIndex c)) d).

(** Two tables that differ at most in the filter state that [filterTable]
    assigns: [filterRecord], [gpuFilter], [filteredIndex] and
    [filteredIndexForDomain]. *)
Definition sameButFilterState (d d' : Table.t G M) : Prop :=
  Table.id d' = Table.id d ∧ Table.label d' = Table.label d
  ∧ Table.color d' = Table.color d ∧ Table.metadata d' = Table.metadata d
  ∧ Table.allData d' = Table.allData d ∧ Table.allIndexes d' = Table.allIndexes d
  ∧ Table.fieldPairs d' = Table.fieldPairs d ∧ Table.fields d' = Table.fields d
  ∧ Table.filteredIdxCPU d' = Table.filteredIdxCPU d
  ∧ Table.filterRecordCPU d' = Table.filterRecordCPU d
  ∧ Table.sortColumn d' = Table.sortColumn d ∧ Table.sortOrder d' = Table.sortOrder d.

End Notions.

(** ** Collaborators as the specification describes them

    Instances of the interfaces above, used to run the table model on
    concrete inputs. *)

Module SpecModel.

(** Modelled from the spec: the constant tables of
    [constants/default-settings] are not part of the file.  The spec names the
    sort modes [ASCENDING], [DESCENDING], [UNSORT], the scale types ordinal,
    point, quantile, log, quantize, linear, sqrt and the field types real,
    integer, boolean, string, date, timestamp, geojson; a table maps each name
    to itself. *)
Definition keyMirror (keys : list string) (key : string) : option string :=
  if bool_decide (key ∈ keys) then Some key else None.

(** Modelled from the spec: [TRIP_POINT_FIELDS] is "a fixed ordered list of
    suffix pairs (e.g. [_lat]/[_lng] style conventions)". *)
Definition tripPointFields : list (string * string) := [("_lat", "_lng")].

(** Modelled from the spec: the module [constants/default-settings], made of
    [tripPointFields] and of the tables of names listed at [keyMirror]. *)
#[export] Instance settings : Settings := {|
  TRIP_POINT_FIELDS := tripPointFields;
  SORT_ORDER := keyMirror ["ASCENDING"; "DESCENDING"; "UNSORT"];
  SCALE_TYPES :=
    keyMirror ["ordinal"; "quantile"; "quantize"; "linear"; "sqrt"; "log"; "point"];
  ALL_FIELD_TYPES :=
    keyMirror ["boolean"; "date"; "geojson"; "integer"; "real"; "string"; "timestamp"]
|}.

(** Modelled from the spec: [maybeToDate], the value accessor of a field,
    reads the cell at the position of the field (section 3, Field and Row);
    the conversion of time stamps is left out, cells being numbers already. *)
Definition cellAt (isTime : bool) (fieldIdx : nat) (format : string)
    (d : option row) : value :=
  default VUndefined (d ≫= (λ r, r !! fieldIdx)).

(** Modelled from the spec: the sign that a comparator returns for an
    outcome of a comparison (section 6, sort comparators). *)
Definition signOf (c : comparison) : Z :=
  match c with Lt => -1 | Eq => 0 | Gt => 1 end.

(** Modelled from the spec: [ascending], the "sort comparator for ascending
    generic ordering" (section 6), on numbers and on strings. *)
Definition compareAscending (a b : value) : Z :=
  match a, b with
  | VNum x, VNum y => signOf (x ?= y)
  | VStr x, VStr y => signOf (String.compare x y)
  | _, _ => 0
  end.

(** Modelled from the spec: [descending], the comparator for descending
    ordering (section 6). *)
Definition compareDescending (a b : value) : Z := compareAscending b a.

(** Modelled from the spec: the modules [utils/data-utils] and [d3-array],
    made of the accessor and the comparators above. *)
#[export] Instance dataUtils : DataUtils := {|
  maybeToDate := cellAt;
  getSortingFunction := λ _, compareAscending;
  ascending := compareAscending;
  descending := compareDescending
|}.

(** Modelled from the spec: the "set of distinct values in first-occurrence
    order (not sorted)" of a sequence of values (section 4.1). *)
Definition distinct (vs : list value) : list value :=
  fold_left (λ seen v, if bool_decide (v ∈ seen) then seen else seen ++ [v]) vs [].

(** Modelled from the spec: [getOrdinalDomain], the distinct values of a
    column over the rows it is given (section 4.1, Ordinal domain). *)
Definition ordinalDomain (allData : list row) (accessor : option row → value)
  : list value :=
  distinct ((λ r, accessor (Some r)) <$> allData).

(** Modelled from the spec: the numbers among accessed values, "ignoring
    null/undefined/NaN" (section 4.1). *)
Definition numbers (vs : list value) : list Z :=
  omap (λ v, match v with VNum n => Some n | _ => None end) vs.

(** Modelled from the spec: the domain "[min, max]" of a sequence of numbers,
    empty when there is none (sections 4.1 and 7, Degenerate Domain). *)
Definition minMax (ns : list Z) : list value :=
  match ns with
  | [] => []
  | n :: r => [VNum (foldr Z.min n r); VNum (foldr Z.max n r)]
  end.

(** Modelled from the spec: [getLinearDomain], "[min, max] over accessed
    values" (section 4.1). *)
Definition linearDomain (indexes : list nat) (accessor : nat → value) : list value :=
  minMax (numbers (accessor <$> indexes)).

(** Modelled from the spec: [getLogDomain], "like linear but must exclude
    ... non-positive values" (section 4.1). *)
Definition logDomain (indexes : list nat) (accessor : nat → value) : list value :=
  minMax (filter (λ n, 0 < n) (numbers (accessor <$> indexes))).

(** Modelled from the spec: [getQuantileDomain], the values sorted with the
    comparator that is supplied (section 4.1). *)
Definition quantileDomain (indexes : list nat) (accessor : nat → value)
    (cmp : value → value → Z) : list value :=
  stableSort cmp (accessor <$> indexes).

(** Modelled from the spec: the module [utils/data-scale-utils], made of the
    four domain calculators above. *)
#[export] Instance scaleUtils : ScaleUtils := {|
  getOrdinalDomain := ordinalDomain;
  getQuantileDomain := quantileDomain;
  getLogDomain := logDomain;
  getLinearDomain := linearDomain
|}.

(** Modelled from the spec: a filter belongs to the tables its descriptor
    names; other filters are left out of the record (section 7, Inapplicable
    Filter). *)
Definition applies (dataId : string) (f : Filter.t) : bool :=
  bool_decide (dataId ∈ Filter.dataId f).

(** Modelled from the spec: [getFilterRecord], the [classify] of section 4.3,
    partitions the filters by the [gpu] flag, [cpuOnly] forcing every filter
    into the CPU group, and by domain relevance, [ignoreDomain] and a fixed
    range keeping a filter out of the [dynamicDomain] group. *)
Definition classify (dataId : string) (filters : list Filter.t) (opt : FilterOpt.t)
  : FilterRecord.t :=
  let fs := filter (λ f, applies dataId f = true) filters in
  let fixed f := (Filter.fixedDomain f || FilterOpt.ignoreDomain opt)%bool in
  let onGpu f := (Filter.gpu f && negb (FilterOpt.cpuOnly opt))%bool in
  {| FilterRecord.dynamicDomain := filter (λ f, fixed f = false) fs;
     FilterRecord.fixedDomain := filter (λ f, fixed f = true) fs;
     FilterRecord.cpu := filter (λ f, onGpu f = false) fs;
     FilterRecord.gpu := filter (λ f, onGpu f = true) fs |}.

(** Modelled from the spec: what [diff] compares of a filter, its "filter id
    + value" (section 4.3). *)
Definition idAndValue (f : Filter.t) : string * (Z * Z) := (Filter.id f, Filter.value f).

(** Modelled from the spec: a group of filters "changed content since the
    last application" (section 4.3). *)
Definition groupChanged (new old : list Filter.t) : bool :=
  negb (bool_decide (idAndValue <$> new = idAndValue <$> old)).

(** Modelled from the spec: [diffFilters], the [diff] of section 4.3, tells
    which of the groups [dynamicDomain] and [cpu] changed between the previous
    and the new classification; without a previous record the groups were
    empty. *)
Definition diff (new : FilterRecord.t) (old : option FilterRecord.t) : Changed.t :=
  {| Changed.dynamicDomain :=
       groupChanged (FilterRecord.dynamicDomain new)
                    (default [] (FilterRecord.dynamicDomain <$> old));
     Changed.cpu :=
       groupChanged (FilterRecord.cpu new) (default [] (FilterRecord.cpu <$> old)) |}.

(** Modelled from the spec: the search of the field-index resolver (section
    6) through the tables and the field positions that a descriptor lists. *)
Fixpoint resolve (dataId : string) (ids : list string) (idxs : list Z) : Z :=
  match ids, idxs with
  | i :: ids', x :: idxs' =>
      if String.eqb i dataId then x else resolve dataId ids' idxs'
  | _, _ => -1
  end.

(** Modelled from the spec: [getDatasetFieldIndexForFilter], the field-index
    resolver "(tableId, filterDescriptor) -> fieldIndex | -1" (section 6). *)
Definition fieldIndexForFilter (dataId : string) (f : Filter.t) : Z :=
  resolve dataId (Filter.dataId f) (Filter.fieldIdx f).

(** Modelled from the spec: [getFilterFunction] for a range filter (section
    4.2): the predicate holds on the rows whose cell lies in the range; a
    missing cell is excluded, and a filter whose field is absent excludes
    nothing. *)
Definition rangePredicate (field : option Field.t) (dataId : string)
    (f : Filter.t) (layers : unit) (r : row) : bool :=
  match field with
  | None => true
  | Some fd =>
      match Field.valueAccessor fd (Some r) with
      | VNum n => bool_decide ((Filter.value f).1 ≤ n ≤ (Filter.value f).2)
      | _ => false
      end
  end.

(** Modelled from the spec: a row passes a group of filters when every
    predicate of the group holds on it (section 4.4). *)
Definition passes (funcs : gmap string (row → bool)) (group : list Filter.t)
    (r : row) : bool :=
  forallb (λ f, match funcs !! Filter.id f with Some p => p r | None => true end)
          group.

(** Modelled from the spec: one scan of the rows, keeping in ascending order
    the indexes of the rows that pass a group (section 4.4). *)
Definition scan (funcs : gmap string (row → bool)) (allData : list row)
    (group : list Filter.t) : list nat :=
  fst <$> filter (λ ir, passes funcs group ir.2 = true)
                 (zip (seq 0 (length allData)) allData).

(** Modelled from the spec: [filterDataByFilterTypes], the dual-index engine
    of section 4.4, returns an index array for each group that is given. *)
Definition dualIndex (dynamicDomainFilters cpuFilters : option (list Filter.t))
    (funcs : gmap string (row → bool)) (allData : list row) : FilterResult.t :=
  {| FilterResult.filteredIndexForDomain := scan funcs allData <$> dynamicDomainFilters;
     FilterResult.filteredIndex := scan funcs allData <$> cpuFilters |}.

(** Modelled from the spec: [getGpuFilterProps]; the GPU filter parameters
    are opaque to the table (section 6), here they are the GPU-flagged filters
    of the table. *)
Definition gpuFilterProps (filters : list Filter.t) (dataId : string)
    (fields : list (option Field.t)) : list Filter.t :=
  filter (λ f, (applies dataId f && Filter.gpu f)%bool = true) filters.

(** Modelled from the spec: the modules [utils/filter-utils] and
    [utils/gpu-filter-utils], made of the functions above. *)
#[export] Instance filterUtils : FilterUtils (list Filter.t) unit := {|
  getGpuFilterProps := gpuFilterProps;
  getDatasetFieldIndexForFilter := fieldIndexForFilter;
  getFilterRecord := classify;
  diffFilters := diff;
  getFilterFunction := rangePredicate;
  filterDataByFilterTypes := dualIndex
|}.

End SpecModel.

(** ** A small table

    Three rows with a numeric column [v] and a pair of coordinate columns,
    under the collaborators of [SpecModel]. *)

Module Sample.
Import SpecModel.

Definition data : Data.t :=
  {| Data.fields :=
       [ FieldInput.mk "v" "integer" "";
         FieldInput.mk "pickup_lat" "real" "";
         FieldInput.mk "pickup_lng" "real" "" ];
     Data.rows :=
       [ [VNum 1; VNum 10; VNum 20];
         [VNum 5; VNum 11; VNum 21];
         [VNum 9; VNum 12; VNum 22] ] |}.

Definition info : Info.t := {| Info.id := Some "trips"; Info.label := None |}.

Definition emptyWorld : World.t (list Filter.t) unit :=
  {| World.heap := ∅; World.console := [] |}.

Definition field (n ty : string) (i : nat) : Field.t :=
  {| Field.name := n; Field.type := ty; Field.format := ""; Field.fieldIdx := i;
     Field.valueAccessor := cellAt false i "" |}.

(** The table that the constructor makes from [data]. *)
Definition table : Table.t (list Filter.t) unit :=
  {| Table.id := "trips";
     Table.label := "new dataset";
     Table.color := ();
     Table.metadata := ();
     Table.allData := Data.rows data;
     Table.allIndexes := [0; 1; 2]%nat;
     Table.filteredIndex := [0; 1; 2]%nat;
     Table.filteredIndexForDomain := [0; 1; 2]%nat;
     Table.fieldPairs :=
       [ {| PointPair.defaultName := "pickup";
            PointPair.lat := PointPair.mkCoord 1 "pickup_lat";
            PointPair.lng := PointPair.mkCoord 2 "pickup_lng";
            PointPair.suffix := ("_lat", "_lng") |} ];
     Table.fields :=
       [ Some (field "v" "integer" 0);
         Some (field "pickup_lat" "real" 1);
         Some (field "pickup_lng" "real" 2) ];
     Table.gpuFilter := [];
     Table.filterRecord := None;
     Table.filteredIdxCPU := None;
     Table.filterRecordCPU := None;
     Table.sortColumn := None;
     Table.sortOrder := SortOrderMissing |}.

(** The store with that table as its only object. *)
Definition world : World.t (list Filter.t) unit :=
  {| World.heap := {[ 0%nat := table ]}; World.console := [] |}.

(** A range filter on [v], evaluated on the CPU, with a fixed domain. *)
Definition cpuRange : Filter.t :=
  {| Filter.id := "range-v";
     Filter.dataId := ["trips"];
     Filter.fieldIdx := [0];
     Filter.fixedDomain := true;
     Filter.gpu := false;
     Filter.value := (4, 6) |}.

(** The same range, flagged for the GPU. *)
Definition gpuRange : Filter.t :=
  {| Filter.id := "range-v";
     Filter.dataId := ["trips"];
     Filter.fieldIdx := [0];
     Filter.fixedDomain := false;
     Filter.gpu := true;
     Filter.value := (4, 6) |}.

(** The store in which a computation ends. *)
Definition endOf {A : Type} (r : result (A * World.t (list Filter.t) unit))
  : option (World.t (list Filter.t) unit) :=
  match r with
  | Ret (_, w) => Some w
  | _ => None
  end.

(** [filteredIndex] and [filteredIndexForDomain] of the object at [l]. *)
Definition indexes (l : loc) (w : World.t (list Filter.t) unit)
  : option (list nat * list nat) :=
  (λ d, (Table.filteredIndex d, Table.filteredIndexForDomain d))
    <$> World.heap w !! l.

(** The two index arrays after one and after two calls of [filterTable] with
    [cpuRange] on the table of [world]. *)
Definition afterOneCall : option (list nat * list nat) :=
  w1 ← endOf (filterTable 0%nat [cpuRange] () None world);
  indexes 0%nat w1.

Definition afterTwoCalls : option (list nat * list nat) :=
  w1 ← endOf (filterTable 0%nat [cpuRange] () None world);
  w2 ← endOf (filterTable 0%nat [cpuRange] () None w1);
  indexes 0%nat w2.

(** Five fields of a table of trips. *)
Definition tripFields : list Field.t :=
  [ field "pickup_lat" "real" 0; field "pickup_lng" "real" 1;
    field "dropoff_lat" "real" 2; field "dropoff_lng" "real" 3;
    field "name" "string" 4 ].

End Sample.

(** ** Filter domains of a column *)

Module FieldDomain.
(** What [getColumnFilterDomain] returns: the object made by
    [getNumericFieldDomain], the one made by [getTimestampFieldDomain], or an
    object with the single property [domain]. *)
Inductive t (N T : Type) : Type :=
  | Numeric (n : N)
  | Timestamp (t : T)
  | Domain (domain : list value).
Arguments Numeric {N T} n.
Arguments Timestamp {N T} t.
Arguments Domain {N T} domain.
End FieldDomain.

(** The two domain functions of [utils/filter-utils] that
    [getColumnFilterDomain] calls, over the types [N] and [T] of what they
    return. *)
Class FilterDomainUtils (N T : Type) : Type := {
  getNumericFieldDomain : list row → (option row → value) → N;
  getTimestampFieldDomain : list row → (option row → value) → T
}.

Section FilterDomain.
Context {G M N T : Type}.
Context `{Settings, ScaleUtils, FilterDomainUtils N T}.

(** [getColumnFilterDomain(field)], lines 277-303.  The cases of the
    [switch] are tried in their order. *)
Definition getColumnFilterDomain (this : loc) (field : Field.t)
  : Js (World.t G M) (FieldDomain.t N T) :=
  d ← load this;
  let allData := Table.allData d in
  let valueAccessor := Field.valueAccessor field in
  let is_case (key : string) :=
    bool_decide (Some (Field.type field) = ALL_FIELD_TYPES key) in
  if (is_case "real" || is_case "integer")%bool then
    mret (FieldDomain.Numeric (getNumericFieldDomain allData valueAccessor))
  else if is_case "boolean" then
    mret (FieldDomain.Domain [VBool true; VBool false])
  else if (is_case "string" || is_case "date")%bool then
    mret (FieldDomain.Domain (getOrdinalDomain allData valueAccessor))
  else if is_case "timestamp" then
    mret (FieldDomain.Timestamp (getTimestampFieldDomain allData valueAccessor))
  else
    mret (FieldDomain.Domain (getOrdinalDomain allData valueAccessor)).

End FilterDomain.

(** Modelled from the spec: [getNumericFieldDomain] and
    [getTimestampFieldDomain] ("real/integer -> numeric", "timestamp ->
    timestamp calculator: like linear", sections 4.1 and 4.5), as the range of
    the numbers of the column over the rows they are given. *)
#[global] Instance specFilterDomainUtils : FilterDomainUtils (list value) (list value) := {|
  getNumericFieldDomain := λ allData accessor,
    SpecModel.minMax (SpecModel.numbers ((λ r, accessor (Some r)) <$> allData));
  getTimestampFieldDomain := λ allData accessor,
    SpecModel.minMax (SpecModel.numbers ((λ r, accessor (Some r)) <$> allData))
|}.

(** ** Further notions used in the statements *)

(** Every slot in front of position [i] holds a field, none of them named
    [columnName]: a search for [columnName] gets as far as [i]. *)
Definition reaches (columnName : string) (fields : list (option Field.t))
    (i : nat) : Prop :=
  ∀ j : nat, (j < i)%nat →
    ∃ g, fields !! j = Some (Some g) ∧ Field.name g ≠ columnName.

(** [fd], at position [i], is the first field named [columnName]. *)
Definition firstNamed (columnName : string) (fields : list (option Field.t))
    (i : nat) (fd : Field.t) : Prop :=
  fields !! i = Some (Some fd) ∧ Field.name fd = columnName
  ∧ reaches columnName fields i.

(** The entry [p] pairs two fields of [fields]: its two positions hold the
    fields whose names it records; the lower-case name of the first ends with
    the first suffix of a pair of [TRIP_POINT_FIELDS], the lower-case name of
    the second is that name with the second suffix in its place, and the
    default name is made from the lower-case name of the first. *)
Definition pairsFields `{Settings} (fields : list Field.t) (p : PointPair.t) : Prop :=
  ∃ f g,
    fields !! PointPair.fieldIdx (PointPair.lat p) = Some f
    ∧ PointPair.value (PointPair.lat p) = Field.name f
    ∧ fields !! PointPair.fieldIdx (PointPair.lng p) = Some g
    ∧ PointPair.value (PointPair.lng p) = Field.name g
    ∧ PointPair.suffix p ∈ TRIP_POINT_FIELDS
    ∧ JsString.endsWith (JsString.toLowerCase (Field.name f)) (PointPair.suffix p).1 = true
    ∧ JsString.toLowerCase (Field.name g)
      = JsString.replaceAtEnd (JsString.toLowerCase (Field.name f))
          (PointPair.suffix p).1 (PointPair.suffix p).2
    ∧ removeSuffixAndDelimiters (JsString.toLowerCase (Field.name f))
        (PointPair.suffix p).1
      = Ret (PointPair.defaultName p).

(** The cell of row [a] in column [fieldIndex] that the comparator of
    [sortDatasetByColumn] reads; [undefined] where the row has no such
    cell. *)
Definition cellOf (allData : list row) (fieldIndex : Z) (a : nat) : value :=
  match allData !! a with
  | Some r => default VUndefined (at_ r fieldIndex)
  | None => VUndefined
  end.

(** The sort order that [sortDatasetByColumn] takes for [mode], line 435,
    and the comparator that goes with it, line 445. *)
Definition sortByOf `{Settings} (mode : string) : option string :=
  if truthy (SORT_ORDER mode) then SORT_ORDER mode else SORT_ORDER "ASCENDING".

Definition comparatorOf `{Settings, DataUtils} (mode : string) : value → value → Z :=
  if decide (sortByOf mode = SORT_ORDER "ASCENDING") then ascending else descending.

(** A comparator is consistent on the cells of the indexes [l], in the sense
    in which [Array.prototype.sort] asks it of a comparator: the signs of
    [cmp x y] and [cmp y x] are opposite, and being not positive is
    transitive.  [key] gives the cell of an index. *)
Definition consistentOn (cmp : value → value → Z) (key : nat → value)
    (l : list nat) : Prop :=
  (∀ a b, a ∈ l → b ∈ l → (cmp (key a) (key b) < 0 ↔ 0 < cmp (key b) (key a)))
  ∧ (∀ a b c, a ∈ l → b ∈ l → c ∈ l →
       cmp (key a) (key b) ≤ 0 → cmp (key b) (key c) ≤ 0 → cmp (key a) (key c) ≤ 0).

(** What a call of [sortDatasetByColumn] leaves in [sortColumn] and
    [sortOrder] of the dataset it returns. *)
Definition sortOutcome {G M : Type} (r : result (loc * World.t G M))
  : result (option (list (string * option string)) * sortOrderValue) :=
  match r with
  | Ret (l, w) =>
      match World.heap w !! l with
      | Some d => Ret (Table.sortColumn d, Table.sortOrder d)
      | None => Unmodelled
      end
  | Raise e => Raise e
  | Unmodelled => Unmodelled
  end.

(** ** Further small tables *)

Module Cases.
Import SpecModel.

(** The table of [Sample] with nothing in the second slot of its fields. *)
Definition holedTable : Table.t (list Filter.t) unit :=
  Table.set_fields
    [ Some (Sample.field "v" "integer" 0); None;
      Some (Sample.field "pickup_lng" "real" 2) ]
    Sample.table.

Definition holedWorld : World.t (list Filter.t) unit :=
  {| World.heap := {[ 0%nat := holedTable ]}; World.console := [] |}.

(** The table of [Sample] after one call of [filterTable] with
    [Sample.cpuRange]. *)
Definition filteredTable : Table.t (list Filter.t) unit :=
  refiltered [Sample.cpuRange] () None Sample.table.

Definition filteredWorld : World.t (list Filter.t) unit :=
  {| World.heap := {[ 0%nat := filteredTable ]}; World.console := [] |}.

(** A dataset with the rows and fields of [Sample] whose [allIndexes] names
    a row that is not there. *)
Definition strayTable : Table.t (list Filter.t) unit :=
  {| Table.id := "stray";
     Table.label := "stray";
     Table.color := ();
     Table.metadata := ();
     Table.allData := Table.allData Sample.table;
     Table.allIndexes := [0; 7]%nat;
     Table.filteredIndex := [0; 7]%nat;
     Table.filteredIndexForDomain := [0; 7]%nat;
     Table.fieldPairs := [];
     Table.fields := Table.fields Sample.table;
     Table.gpuFilter := [];
     Table.filterRecord := None;
     Table.filteredIdxCPU := None;
     Table.filterRecordCPU := None;
     Table.sortColumn := None;
     Table.sortOrder := SortOrderMissing |}.

Definition strayWorld : World.t (list Filter.t) unit :=
  {| World.heap := {[ 0%nat := strayTable ]}; World.console := [] |}.

(** Two fields that no suffix pair of [SpecModel.settings] fits. *)
Definition plainFields : list Field.t :=
  [ Sample.field "name" "string" 0; Sample.field "v" "integer" 1 ].

(** The two point pairs of [Sample.tripFields]. *)
Definition tripPairs : list PointPair.t :=
  [ {| PointPair.defaultName := "pickup";
       PointPair.lat := PointPair.mkCoord 0 "pickup_lat";
       PointPair.lng := PointPair.mkCoord 1 "pickup_lng";
       PointPair.suffix := ("_lat", "_lng") |};
    {| PointPair.defaultName := "dropoff";
       PointPair.lat := PointPair.mkCoord 2 "dropoff_lat";
       PointPair.lng := PointPair.mkCoord 3 "dropoff_lng";
       PointPair.suffix := ("_lat", "_lng") |} ].

End Cases.

(** * Properties *)

(** ** Running computations *)

Section Running.
Context {G M : Type}.
Abbreviation W' := (World.t G M).

Lemma run_bind {A B : Type} (m : Js W' A) (k : A → Js W' B) w a w' :
  m w = Ret (a, w') → (m ≫= k) w = k a w'.
Proof. intros E. unfold mbind, Js_bind. by rewrite E. Qed.

Lemma run_bind_raise {A B : Type} (m : Js W' A) (k : A → Js W' B) w e :
  m w = Raise e → (m ≫= k) w = Raise e.
Proof. intros E. unfold mbind, Js_bind. by rewrite E. Qed.

Lemma load_run (w : W') l d :
  World.heap w !! l = Some d → load l w = Ret (d, w).
Proof. intros E. unfold load. by rewrite E. Qed.

Lemma assign_run (w : W') l d upd :
  World.heap w !! l = Some d →
  assign l upd w
  = Ret ((), World.mk (<[l := upd d]> (World.heap w)) (World.console w)).
Proof. intros E. unfold assign. by rewrite E. Qed.

Lemma lift_run {A : Type} (a : A) (w : W') : lift (Ret a) w = Ret (a, w).
Proof. reflexivity. Qed.

(** A new location differs from every location in use. *)
Lemma fresh_loc_unused (h : gmap loc (Table.t G M)) : h !! fresh (dom h) = None.
Proof. apply not_elem_of_dom, is_fresh. Qed.

Lemma fresh_loc_ne (h : gmap loc (Table.t G M)) l d :
  h !! l = Some d → fresh (dom h) ≠ l.
Proof. intros E Heq. rewrite <- Heq, fresh_loc_unused in E. discriminate. Qed.

End Running.

(** One step of a computation whose next action is a [load] or an [assign]
    on a location known to hold an object. *)
Ltac js_step :=
  erewrite run_bind;
  [ | first [ apply load_run | apply assign_run | apply lift_run ];
      cbn [World.heap World.console];
      first [ eassumption
            | apply lookup_insert_eq
            | rewrite lookup_insert_ne by (first [ eassumption | eauto using fresh_loc_ne ]);
              first [ eassumption | apply lookup_insert_eq ] ] ];
  cbn [World.heap World.console].

(** ** [filterTable] *)

Section FilterTable.
Context {G M L : Type}.
Context `{FilterUtils G L}.

(** [filterTable] always returns its receiver, and changes the receiver
    only. *)
Lemma filterTable_run (w : World.t G M) this d filters (layers : L) opt :
  World.heap w !! this = Some d →
  filterTable this filters layers opt w
  = Ret (this,
         World.mk (<[this := if decide (length filters = 0%nat)
                             then unfiltered opt d
                             else refiltered filters layers opt d]> (World.heap w))
                  (World.console w)).
Proof.
  intros E. unfold filterTable.
  do 3 js_step.
  destruct (decide (length filters = 0%nat)) as [Hl|Hl].
  - destruct filters; [|discriminate].
    do 2 js_step. simpl. by rewrite !insert_insert_eq.
  - do 2 js_step. simpl. by rewrite !insert_insert_eq.
Qed.

Lemma unfiltered_frame opt (d : Table.t G M) : sameButFilterState d (unfiltered opt d).
Proof. by repeat split. Qed.

Lemma refiltered_frame filters (layers : L) opt (d : Table.t G M) :
  sameButFilterState d (refiltered filters layers opt d).
Proof. by repeat split. Qed.

(** A sequence of [filterTable] calls returns, and leaves the receiver as it
    was but for its filter state. *)
Lemma filterTableCalls_run calls : ∀ (w : World.t G M) this d,
  World.heap w !! this = Some d →
  ∃ d', filterTableCalls (L := L) this calls w
        = Ret ((), World.mk (<[this := d']> (World.heap w)) (World.console w))
        ∧ sameButFilterState d d'.
Proof.
  induction calls as [|[[filters layers] opt] later IH]; intros w this d E.
  - exists d. split; [|by repeat split].
    cbn. rewrite insert_id by done. by destruct w.
  - cbn [filterTableCalls].
    erewrite run_bind; [|by apply filterTable_run].
    set (d1 := if decide _ then _ else _).
    assert (sameButFilterState d d1) as F1.
    { subst d1. case_decide; [apply unfiltered_frame|apply refiltered_frame]. }
    edestruct (IH (World.mk (<[this := d1]> (World.heap w)) (World.console w)) this d1)
      as (d' & -> & F2); [apply lookup_insert_eq|].
    exists d'. cbn [World.heap World.console]. rewrite insert_insert_eq.
    split; [done|].
    unfold sameButFilterState in *. destruct_and!. repeat split; congruence.
Qed.

(** C1.  With an empty filter list, [filterTable] returns its receiver and
    leaves it in the state [unfiltered], which is made from the receiver,
    the new filter record and the new GPU filter parameters alone: no filter
    function is built and no row is scanned.  In that state [filteredIndex]
    and [filteredIndexForDomain] are [allIndexes], which for a table whose
    [allIndexes] is as the constructor made it is the ascending sequence
    0..N-1 of length N, the number of rows. *)
Theorem filterTable_no_filters (w : World.t G M) this d (layers : L) opt :
  World.heap w !! this = Some d →
  canonical d →
  filterTable this [] layers opt w
  = Ret (this, World.mk (<[this := unfiltered opt d]> (World.heap w)) (World.console w))
  ∧ Table.filteredIndex (unfiltered opt d) = Table.allIndexes d
  ∧ Table.filteredIndexForDomain (unfiltered opt d) = Table.allIndexes d
  ∧ Table.allIndexes (unfiltered opt d) = seq 0 (length (Table.allData (unfiltered opt d)))
  ∧ Table.filteredIndex (unfiltered opt d) = seq 0 (length (Table.allData d))
  ∧ Table.filteredIndexForDomain (unfiltered opt d) = seq 0 (length (Table.allData d))
  ∧ length (Table.filteredIndex (unfiltered opt d)) = length (Table.allData d)
  ∧ length (Table.filteredIndexForDomain (unfiltered opt d)) = length (Table.allData d).
Proof.
  intros E C. split; [by rewrite (filterTable_run _ _ d)|].
  unfold canonical in C. cbn. rewrite C, length_seq. done.
Qed.

(** Re-applying a filter list that the diff step recognises as unchanged
    copies [filteredIndexForDomain] into [filteredIndex]: line 222 falls back
    on the domain index, and line 223 then reads the value just written. *)
Lemma refiltered_again filters (layers : L) opt (d : Table.t G M) :
  (∀ r, diffFilters r (Some r) = {| Changed.dynamicDomain := false; Changed.cpu := false |}) →
  let d1 := refiltered filters layers opt d in
  Table.filteredIndex (refiltered filters layers opt d1) = Table.filteredIndexForDomain d1
  ∧ Table.filteredIndexForDomain (refiltered filters layers opt d1)
    = Table.filteredIndexForDomain d1.
Proof.
  intros Hdiff d1.
  assert (computeFilterResult d1 filters layers
            (getFilterRecord (Table.id d1) filters (default FilterOpt.empty opt))
          = FilterResult.empty) as E.
  { unfold computeFilterResult. subst d1. cbn [refiltered Table.filterRecord Table.id
      Table.set_filterRecord Table.set_gpuFilter Table.set_filteredIndex
      Table.set_filteredIndexForDomain]. by rewrite Hdiff. }
  unfold refiltered. fold d1. rewrite E. done.
Qed.

(** Two calls of [filterTable] with the same non-empty filter list, layers
    and options: after the second, both index arrays are the
    [filteredIndexForDomain] that the first call left. *)
Lemma filterTable_twice (w : World.t G M) this d filters (layers : L) opt :
  World.heap w !! this = Some d →
  length filters ≠ 0%nat →
  (∀ r, diffFilters r (Some r) = {| Changed.dynamicDomain := false; Changed.cpu := false |}) →
  ∃ w1 w2 d1 d2,
    filterTable this filters layers opt w = Ret (this, w1)
    ∧ filterTable this filters layers opt w1 = Ret (this, w2)
    ∧ World.heap w1 !! this = Some d1
    ∧ World.heap w2 !! this = Some d2
    ∧ Table.filteredIndex d2 = Table.filteredIndexForDomain d1
    ∧ Table.filteredIndexForDomain d2 = Table.filteredIndexForDomain d1.
Proof.
  intros E Hlen Hdiff.
  pose proof (filterTable_run w this d filters layers opt E) as R1.
  rewrite decide_False in R1 by done.
  eexists _, _, _, _. split; [exact R1|].
  split; [apply filterTable_run; apply lookup_insert_eq|].
  cbn [World.heap]. rewrite decide_False by done.
  split; [apply lookup_insert_eq|]. split; [apply lookup_insert_eq|].
  by apply refiltered_again.
Qed.

(** C7.  When some filter is flagged [gpu], [filterTableCPU] allocates a new
    object [copied], filters it, and returns it.  The receiver keeps its
    [filteredIndex], its [filteredIndexForDomain] and every other attribute;
    only [filteredIdxCPU] and [filterRecordCPU] are assigned, from the copy.
    The copy has the rows and the fields of the receiver, and no other object
    of the store changes. *)
Theorem filterTableCPU_shadow (w : World.t G M) this d filters (layers : L) :
  World.heap w !! this = Some d →
  (∃ f, f ∈ filters ∧ Filter.gpu f = true) →
  filterTableCPU this filters layers w
  = Ret (fresh (dom (World.heap w)),
         World.mk (<[this := withCpuCache (shadowCopy filters layers d) d]>
                     (<[fresh (dom (World.heap w)) := shadowCopy filters layers d]>
                        (World.heap w)))
                  (World.console w))
  ∧ fresh (dom (World.heap w)) ≠ this
  ∧ World.heap w !! fresh (dom (World.heap w)) = None
  ∧ Table.filteredIndex (withCpuCache (shadowCopy filters layers d) d)
    = Table.filteredIndex d
  ∧ Table.filteredIndexForDomain (withCpuCache (shadowCopy filters layers d) d)
    = Table.filteredIndexForDomain d
  ∧ Table.set_filterRecordCPU (Table.filterRecordCPU d)
      (Table.set_filteredIdxCPU (Table.filteredIdxCPU d)
         (withCpuCache (shadowCopy filters layers d) d)) = d
  ∧ Table.filteredIdxCPU (withCpuCache (shadowCopy filters layers d) d)
    = Some (Table.filteredIndex (shadowCopy filters layers d))
  ∧ Table.filterRecordCPU (withCpuCache (shadowCopy filters layers d) d)
    = Table.filterRecord (shadowCopy filters layers d)
  ∧ Table.allData (shadowCopy filters layers d) = Table.allData d
  ∧ Table.fields (shadowCopy filters layers d) = Table.fields d.
Proof.
  intros E (f & Hin & Hgpu).
  assert (existsb Filter.gpu filters = true) as Hex.
  { apply existsb_exists. exists f. split; [by apply list_elem_of_In|done]. }
  assert (length filters ≠ 0%nat) as Hlen.
  { destruct filters; [by apply elem_of_nil in Hin|done]. }
  pose proof (fresh_loc_ne _ _ _ E) as Hne.
  split; [|by repeat split; try apply fresh_loc_unused; destruct d].
  unfold filterTableCPU.
  destruct (decide (length filters = 0%nat)) as [|_]; [done|].
  rewrite Hex. cbn [negb].
  unfold copyTable.
  erewrite run_bind; last first.
  { erewrite run_bind; [|by apply load_run]. reflexivity. }
  cbn [World.heap World.console].
  js_step. js_step. js_step.
  rewrite !insert_insert_eq.
  erewrite run_bind; [|apply filterTable_run; cbn; apply lookup_insert_eq].
  cbn [World.heap World.console].
  rewrite decide_False by done. rewrite insert_insert_eq.
  js_step. js_step. js_step. js_step.
  cbn. rewrite insert_insert_eq. reflexivity.
Qed.

End FilterTable.

(** ** Layer domains *)

Section LayerDomain.
Context {G M L : Type}.
Context `{Settings, DataUtils, ScaleUtils, FilterUtils G L}.

(** For the ordinal and the point scale, [getColumnLayerDomain] is the
    ordinal domain of all rows. *)
Lemma getColumnLayerDomain_ordinal (w : World.t G M) this d field scaleType :
  World.heap w !! this = Some d →
  truthy (SCALE_TYPES scaleType) = true →
  Some scaleType = SCALE_TYPES "ordinal" ∨ Some scaleType = SCALE_TYPES "point" →
  getColumnLayerDomain this field scaleType w
  = Ret (Some (getOrdinalDomain (Table.allData d) (Field.valueAccessor field)), w).
Proof.
  intros E Ht Hs. unfold getColumnLayerDomain.
  js_step. rewrite Ht. cbn [negb].
  destruct Hs as [Hs|Hs].
  - by rewrite (bool_decide_eq_true_2 _ Hs).
  - rewrite (bool_decide_eq_true_2 _ Hs). by rewrite orb_true_r.
Qed.

(** C3.  For the ordinal and the point scale type, [getColumnLayerDomain]
    returns the ordinal domain computed over [allData]; any sequence of
    [filterTable] calls runs to its end and leaves that domain as it was. *)
Theorem ordinal_domain_ignores_filters (w : World.t G M) this d field scaleType
    (calls : list (list Filter.t * L * option FilterOpt.t)) :
  World.heap w !! this = Some d →
  truthy (SCALE_TYPES scaleType) = true →
  Some scaleType = SCALE_TYPES "ordinal" ∨ Some scaleType = SCALE_TYPES "point" →
  ∃ w',
    filterTableCalls this calls w = Ret ((), w')
    ∧ getColumnLayerDomain this field scaleType w
      = Ret (Some (getOrdinalDomain (Table.allData d) (Field.valueAccessor field)), w)
    ∧ getColumnLayerDomain this field scaleType w'
      = Ret (Some (getOrdinalDomain (Table.allData d) (Field.valueAccessor field)), w').
Proof.
  intros E Ht Hs.
  destruct (filterTableCalls_run calls w this d E) as (d' & Hrun & F).
  eexists. split; [exact Hrun|].
  split; [by apply getColumnLayerDomain_ordinal|].
  destruct F as (_ & _ & _ & _ & <- & _).
  apply getColumnLayerDomain_ordinal; [apply lookup_insert_eq|done..].
Qed.

End LayerDomain.

(** ** Field lookup and field update *)

Section Fields.
Context {G M : Type}.

Lemma findField_unnamed columnName fields :
  dense fields → unnamed columnName fields → findField columnName fields = Ret None.
Proof.
  unfold dense, unnamed. induction fields as [|[fd|] later IH]; intros D U.
  - done.
  - cbn. rewrite (proj2 (String.eqb_neq _ _)) by (apply U; left).
    apply IH; [by inversion D|]. intros fd' Hin. apply U. by right.
  - inversion D as [|? ? [? ?]]. discriminate.
Qed.

Lemma findFieldIndexFrom_unnamed columnName fields : ∀ i,
  dense fields → unnamed columnName fields →
  findFieldIndexFrom columnName i fields = Ret (-1).
Proof.
  unfold dense, unnamed. induction fields as [|[fd|] later IH]; intros i D U.
  - done.
  - cbn. rewrite (proj2 (String.eqb_neq _ _)) by (apply U; left).
    apply IH; [by inversion D|]. intros fd' Hin. apply U. by right.
  - inversion D as [|? ? [? ?]]. discriminate.
Qed.

Lemma findFieldIndexFrom_named columnName fields : ∀ i,
  dense fields → (∃ fd, Some fd ∈ fields ∧ Field.name fd = columnName) →
  ∃ j, findFieldIndexFrom columnName i fields = Ret j ∧ i ≤ j.
Proof.
  unfold dense. induction fields as [|[fd|] later IH]; intros i D (fd' & Hin & Hn).
  - by apply elem_of_nil in Hin.
  - cbn. destruct (String.eqb_spec (Field.name fd) columnName) as [|Hne].
    + exists i. split; [done|lia].
    + destruct (IH (i + 1)) as (j & -> & Hj).
      * by inversion D.
      * exists fd'. split; [|done].
        apply elem_of_cons in Hin as [Heq|]; [congruence|done].
      * exists j. split; [done|lia].
  - inversion D as [|? ? [? ?]]. discriminate.
Qed.

(** Writing past the end of the array leaves a slot that holds no field, and
    a lookup that reaches such a slot throws. *)
Lemma assignSlot_past_end fd (newField : Field.t) columnName :
  Field.name fd ≠ columnName →
  assignSlot [Some fd] 2 newField = [Some fd; None; Some newField]
  ∧ findField columnName (assignSlot [Some fd] 2 newField) = Raise TypeError.
Proof.
  intros Hne.
  assert (assignSlot [Some fd] 2 newField = [Some fd; None; Some newField]) as ->
    by done.
  split; [done|].
  cbn. by rewrite (proj2 (String.eqb_neq _ _)).
Qed.

(** C8.  For an index inside the array of fields, [updateColumnField]
    replaces the field at that index: the slot holds the new field, every
    other slot and the length of the array are as before, the table keeps
    its rows and all its other attributes, and no other object changes. *)
Theorem updateColumnField_frame (w : World.t G M) this d fieldIdx newField :
  World.heap w !! this = Some d →
  0 ≤ fieldIdx < Z.of_nat (length (Table.fields d)) →
  updateColumnField this fieldIdx newField w
  = Ret ((), World.mk
               (<[this := Table.set_fields
                            (<[Z.to_nat fieldIdx := Some newField]> (Table.fields d)) d]>
                  (World.heap w))
               (World.console w))
  ∧ <[Z.to_nat fieldIdx := Some newField]> (Table.fields d) !! Z.to_nat fieldIdx
    = Some (Some newField)
  ∧ (∀ j : nat, j ≠ Z.to_nat fieldIdx →
       <[Z.to_nat fieldIdx := Some newField]> (Table.fields d) !! j = Table.fields d !! j)
  ∧ length (<[Z.to_nat fieldIdx := Some newField]> (Table.fields d))
    = length (Table.fields d)
  ∧ Table.allData
      (Table.set_fields (<[Z.to_nat fieldIdx := Some newField]> (Table.fields d)) d)
    = Table.allData d
  ∧ Table.set_fields (Table.fields d)
      (Table.set_fields (<[Z.to_nat fieldIdx := Some newField]> (Table.fields d)) d)
    = d
  ∧ (∀ l, l ≠ this →
       <[this := Table.set_fields
                   (<[Z.to_nat fieldIdx := Some newField]> (Table.fields d)) d]>
         (World.heap w) !! l
       = World.heap w !! l).
Proof.
  intros E Hi.
  split; [|repeat split].
  - unfold updateColumnField. js_step.
    erewrite assign_run by eassumption.
    unfold assignSlot.
    rewrite decide_False by lia. rewrite decide_True by lia. done.
  - apply list_lookup_insert_eq. lia.
  - intros j Hj. by apply list_lookup_insert_ne.
  - apply length_insert.
  - by destruct d.
  - intros l Hl. by apply lookup_insert_ne.
Qed.

(** A lookup that finds no field goes on to [Console.error], line 361, and
    reading [error] from the binding [Console], which is [undefined],
    throws: for a dense array of fields none of which has the name
    [columnName], [getColumnField], [getColumnFieldIdx] and [getValue] end in
    a [TypeError]. *)
Lemma missing_column_throws (w : World.t G M) this d columnName :
  World.heap w !! this = Some d →
  dense (Table.fields d) →
  unnamed columnName (Table.fields d) →
  getColumnField this columnName w = Raise TypeError
  ∧ getColumnFieldIdx this columnName w = Raise TypeError
  ∧ ∀ rowIdx, getValue this columnName rowIdx w = Raise TypeError.
Proof.
  intros E D U.
  assert (∀ A (k : unit → Js (World.t G M) A),
            (_assetField this columnName false ≫= k) w = Raise TypeError) as Hlog.
  { intros A k. apply run_bind_raise. unfold _assetField. cbn [negb].
    by erewrite run_bind by by apply load_run. }
  assert (getColumnField this columnName w = Raise TypeError) as Hfield.
  { unfold getColumnField. js_step.
    rewrite (findField_unnamed _ _ D U). js_step.
    rewrite bool_decide_eq_false_2 by (by intros [? ?]). apply Hlog. }
  split; [done|]. split.
  - unfold getColumnFieldIdx. js_step.
    unfold findFieldIndex. rewrite (findFieldIndexFrom_unnamed _ _ _ D U). js_step.
    rewrite bool_decide_eq_false_2 by lia. apply Hlog.
  - intros rowIdx. unfold getValue. by erewrite run_bind_raise by exact Hfield.
Qed.

End Fields.

(** ** [sortDatasetByColumn] *)

Section Sorting.
Context {G M : Type}.
Context `{Settings, DataUtils}.

(** C10.  When the array of fields is dense and no field has the name
    [column], [sortDatasetByColumn] returns the location of its argument and
    the store as it was, whatever the mode: no object is made or changed,
    and nothing is thrown. *)
Theorem sortDatasetByColumn_missing_column (w : World.t G M) dataset d column mode :
  World.heap w !! dataset = Some d →
  dense (Table.fields d) →
  unnamed column (Table.fields d) →
  sortDatasetByColumn dataset column mode w = Ret (dataset, w).
Proof.
  intros E D U. unfold sortDatasetByColumn. js_step.
  unfold findFieldIndex. rewrite (findFieldIndexFrom_unnamed _ _ _ D U). js_step.
  by rewrite decide_True by lia.
Qed.

(** C6.  When the array of fields is dense and has a field named [column],
    and [SORT_ORDER.UNSORT] is a non-empty string, [sortDatasetByColumn] with
    mode [UNSORT] returns a new object that is the dataset with [sortColumn]
    set to the empty object and [sortOrder] set to [null], whatever the two
    were before.  The dataset itself stays in the store as it was. *)
Theorem sortDatasetByColumn_unsort (w : World.t G M) dataset d column unsort :
  World.heap w !! dataset = Some d →
  dense (Table.fields d) →
  (∃ fd, Some fd ∈ Table.fields d ∧ Field.name fd = column) →
  SORT_ORDER "UNSORT" = Some unsort →
  unsort ≠ "" →
  sortDatasetByColumn dataset column "UNSORT" w
  = Ret (fresh (dom (World.heap w)),
         World.mk
           (<[fresh (dom (World.heap w)) :=
                Table.set_sortOrder SortOrderNull (Table.set_sortColumn (Some []) d)]>
              (World.heap w))
           (World.console w))
  ∧ fresh (dom (World.heap w)) ≠ dataset
  ∧ World.heap w !! fresh (dom (World.heap w)) = None
  ∧ <[fresh (dom (World.heap w)) :=
        Table.set_sortOrder SortOrderNull (Table.set_sortColumn (Some []) d)]>
      (World.heap w) !! dataset = Some d
  ∧ Table.sortColumn
      (Table.set_sortOrder SortOrderNull (Table.set_sortColumn (Some []) d)) = Some []
  ∧ Table.sortOrder
      (Table.set_sortOrder SortOrderNull (Table.set_sortColumn (Some []) d))
    = SortOrderNull
  ∧ Table.set_sortOrder (Table.sortOrder d)
      (Table.set_sortColumn (Table.sortColumn d)
         (Table.set_sortOrder SortOrderNull (Table.set_sortColumn (Some []) d)))
    = d.
Proof.
  intros E D Hnamed Hu Hne.
  pose proof (fresh_loc_ne _ _ _ E) as Hfresh.
  split; [|repeat split].
  - unfold sortDatasetByColumn. js_step.
    unfold findFieldIndex.
    destruct (findFieldIndexFrom_named column (Table.fields d) 0 D Hnamed)
      as (j & -> & Hj).
    js_step. rewrite decide_False by lia.
    assert (truthy (SORT_ORDER "UNSORT") = true) as ->.
    { rewrite Hu. cbn. by rewrite (proj2 (String.eqb_neq _ _)). }
    by rewrite decide_True by done.
  - done.
  - apply fresh_loc_unused.
  - by rewrite lookup_insert_ne.
  - by destruct d.
Qed.

End Sorting.

(** ** Names of point pairs *)

Module JsStringFacts.
Import JsString.

Lemma chars_str l : chars (str l) = l.
Proof. apply list_ascii_of_string_of_list_ascii. Qed.

Lemma blank_runs_no_delimiter s : ∀ inrun,
  Forall (λ c, is_delimiter c = false) (blank_runs inrun s).
Proof.
  induction s as [|c r IH]; intros inrun; cbn; [constructor|].
  destruct (is_delimiter c) eqn:Hc.
  - destruct inrun; [apply IH|]. constructor; [done|apply IH].
  - constructor; [done|apply IH].
Qed.

Lemma drop_spaces_Forall (P : ascii → Prop) l :
  Forall P l → Forall P (drop_spaces l).
Proof.
  induction 1 as [|c r Hc Hr IH]; cbn; [constructor|].
  destruct (is_space c); [done|by constructor].
Qed.

Lemma drop_spaces_idem l : drop_spaces (drop_spaces l) = drop_spaces l.
Proof.
  induction l as [|c r IH]; [done|]. cbn.
  destruct (is_space c) eqn:Hc; [done|]. cbn. by rewrite Hc.
Qed.

Lemma drop_spaces_snoc l c :
  is_space c = false → drop_spaces (l ++ [c]) = drop_spaces l ++ [c].
Proof.
  intros Hc. induction l as [|a r IH]; cbn; [by rewrite Hc|].
  by destruct (is_space a).
Qed.

(** What [drop_spaces] returns is empty or begins with a character that is no
    white space. *)
Lemma drop_spaces_head l :
  drop_spaces l = [] ∨ ∃ c r, drop_spaces l = c :: r ∧ is_space c = false.
Proof.
  induction l as [|a r IH]; [by left|]. cbn.
  destruct (is_space a) eqn:Ha; [done|]. right. by exists a, r.
Qed.

Lemma trim_chars s :
  chars (trim s) = rev (drop_spaces (rev (drop_spaces (chars s)))).
Proof. unfold trim. apply chars_str. Qed.

Lemma trim_idem s : trim (trim s) = trim s.
Proof.
  unfold trim. rewrite chars_str. f_equal.
  destruct (drop_spaces_head (chars s)) as [->|(c & r & -> & Hc)]; [done|].
  cbn [rev]. rewrite drop_spaces_snoc by done.
  rewrite rev_app_distr. cbn [rev app]. cbn [drop_spaces]. rewrite Hc.
  change (c :: rev (drop_spaces (rev r))) with ([c] ++ rev (drop_spaces (rev r))).
  rewrite rev_app_distr, rev_involutive. cbn [rev app].
  rewrite drop_spaces_snoc by done. rewrite drop_spaces_idem.
  by rewrite rev_app_distr.
Qed.

Lemma trim_Forall (P : ascii → Prop) s :
  Forall P (chars s) → Forall P (chars (trim s)).
Proof.
  intros Hs. rewrite trim_chars.
  apply Forall_rev, drop_spaces_Forall, Forall_rev, drop_spaces_Forall, Hs.
Qed.

End JsStringFacts.

(** C5.  [removeSuffixAndDelimiters('trip.pickup_lat', '_lat')] is
    ['trip pickup']: removing the suffix leaves ['trip.pickup'], replacing
    the delimiters gives ['trip pickup'], which trimming keeps.  For every
    name and every plain suffix the result has no underscore, comma or
    period left and is trimmed. *)
Theorem removeSuffixAndDelimiters_trip_pickup :
  removeSuffixAndDelimiters "trip.pickup_lat" "_lat" = Ret "trip pickup"
  ∧ JsString.removeAllIgnoreCase "_lat" "trip.pickup_lat" = "trip.pickup"
  ∧ JsString.replaceDelimiters "trip.pickup" = "trip pickup"
  ∧ JsString.trim "trip pickup" = "trip pickup"
  ∧ ∀ layerName suffix,
      match removeSuffixAndDelimiters layerName suffix with
      | Ret r =>
          Forall (λ c, JsString.is_delimiter c = false) (JsString.chars r)
          ∧ JsString.trim r = r
      | Raise _ => False
      | Unmodelled => JsString.plain suffix = false
      end.
Proof.
  do 4 (split; [reflexivity|]).
  intros layerName suffix. unfold removeSuffixAndDelimiters.
  destruct (JsString.plain suffix); [|done].
  split; [|apply JsStringFacts.trim_idem].
  apply JsStringFacts.trim_Forall. unfold JsString.replaceDelimiters.
  rewrite JsStringFacts.chars_str. apply JsStringFacts.blank_runs_no_delimiter.
Qed.

(** ** [findPointFieldPairs] *)

Lemma findIndexFrom_range {A : Type} (p : A → bool) (l : list A) : ∀ i,
  findIndexFrom p i l > -1 → 0 ≤ i →
  i ≤ findIndexFrom p i l < i + Z.of_nat (length l).
Proof.
  induction l as [|x r IH]; intros i Hfound Hi; cbn in *; [lia|].
  destruct (p x); [lia|].
  specialize (IH (i + 1) Hfound). lia.
Qed.

(** A field whose name ends with none of the first suffixes adds no pair. *)
Lemma matchSuffixPairs_no_suffix suffixPairs fields allNames fieldName idx :
  Forall (λ q, JsString.endsWith fieldName q.1 = false) suffixPairs →
  matchSuffixPairs suffixPairs fields allNames fieldName idx = Ret None.
Proof.
  induction 1 as [|q later Hq _ IH]; cbn; [done|]. by rewrite Hq.
Qed.

(** Suffix pairs that do not match are passed over. *)
Lemma matchSuffixPairs_skip earlier rest fields allNames fieldName idx :
  Forall (λ q, plainPair q = true) earlier →
  Forall (λ q, suffixPairMatches allNames fieldName q = false) earlier →
  matchSuffixPairs (earlier ++ rest) fields allNames fieldName idx
  = matchSuffixPairs rest fields allNames fieldName idx.
Proof.
  induction earlier as [|q later IH]; intros Hplain Hno; [done|].
  inversion Hplain as [|? ? Hq Hplain']; inversion Hno as [|? ? Hm Hno']; subst.
  cbn [app matchSuffixPairs]. unfold suffixPairMatches in Hm.
  destruct (JsString.endsWith fieldName q.1); [|by apply IH].
  unfold plainPair in Hq. rewrite Hq.
  cbn [andb] in Hm. apply bool_decide_eq_false in Hm.
  rewrite decide_False by done. by apply IH.
Qed.

(** A suffix pair that matches makes the entry; the pairs behind it are
    not looked at. *)
Lemma matchSuffixPairs_hit p later fields fieldName idx fd :
  plainPair p = true →
  suffixPairMatches ((λ f, JsString.toLowerCase (Field.name f)) <$> fields) fieldName p
  = true →
  fields !! idx = Some fd →
  ∃ entry,
    matchSuffixPairs (p :: later) fields
      ((λ f, JsString.toLowerCase (Field.name f)) <$> fields) fieldName idx
    = Ret (Some entry)
    ∧ PointPair.suffix entry = p
    ∧ PointPair.lat entry = PointPair.mkCoord idx (Field.name fd)
    ∧ removeSuffixAndDelimiters fieldName p.1 = Ret (PointPair.defaultName entry).
Proof.
  intros Hplain Hm Hfd. cbn [matchSuffixPairs].
  unfold suffixPairMatches in Hm. apply andb_true_iff in Hm as [-> Hfound].
  apply bool_decide_eq_true in Hfound.
  pose proof Hplain as Hplain'. unfold plainPair in Hplain'. rewrite Hplain'.
  apply andb_true_iff in Hplain' as [Hp1 _].
  rewrite decide_True by done.
  unfold removeSuffixAndDelimiters. rewrite Hp1. cbn [mbind result_bind].
  rewrite Hfd.
  set (partnerIdx := findIndex _ _) in *.
  assert (0 ≤ partnerIdx < Z.of_nat (length fields)) as Hrange.
  { pose proof (findIndexFrom_range _ _ 0 Hfound) as Hr.
    rewrite length_fmap in Hr. unfold partnerIdx, findIndex. lia. }
  destruct (at_ fields partnerIdx) as [g|] eqn:Hg.
  - eexists. by repeat split.
  - unfold at_ in Hg. rewrite decide_True in Hg by lia.
    apply lookup_ge_None in Hg. lia.
Qed.

(** A pair whose first suffix ends the name but whose partner is no field
    does not match: the search goes on to the next pair. *)
Lemma matchSuffixPairs_partner_missing :
  matchSuffixPairs [("lat", "lng"); ("lat", "lon")]
    [Sample.field "a_lat" "real" 0; Sample.field "a_lon" "real" 1]
    ["a_lat"; "a_lon"] "a_lat" 0
  = Ret (Some {| PointPair.defaultName := "a";
                 PointPair.lat := PointPair.mkCoord 0 "a_lat";
                 PointPair.lng := PointPair.mkCoord 1 "a_lon";
                 PointPair.suffix := ("lat", "lon") |}).
Proof. reflexivity. Qed.

(** C4.  First part: for fields named [pickup_lat], [pickup_lng],
    [dropoff_lat], [dropoff_lng], [name], in that order, when the list of
    suffix pairs begins with [lat]/[lng] or with [_lat]/[_lng] and none of its
    first suffixes ends the names [pickup_lng], [dropoff_lng] or [name],
    [findPointFieldPairs] returns the two pairs [pickup] (fields 0 and 1) and
    [dropoff] (fields 2 and 3) and nothing else.
    Second part: for any list of plain suffix pairs and any field, when [p] is
    the first pair of the list that matches the field, the search returns
    the entry made from [p], and returns the same whatever pairs come after
    [p]. *)
Theorem findPointFieldPairs_first_match `{Settings}
    (fields : list Field.t)
    (fields' : list Field.t) (earlier later : list (string * string))
    (p : string * string) (fieldName : string) (idx : nat) (fd : Field.t) :
  Field.name <$> fields
  = ["pickup_lat"; "pickup_lng"; "dropoff_lat"; "dropoff_lng"; "name"] →
  head TRIP_POINT_FIELDS = Some ("lat", "lng")
  ∨ head TRIP_POINT_FIELDS = Some ("_lat", "_lng") →
  Forall (λ q, forallb (λ n, negb (JsString.endsWith n q.1))
                 ["pickup_lng"; "dropoff_lng"; "name"] = true)
         TRIP_POINT_FIELDS →
  Forall (λ q, plainPair q = true) (earlier ++ [p]) →
  Forall (λ q, suffixPairMatches
                 ((λ f, JsString.toLowerCase (Field.name f)) <$> fields') fieldName q
               = false) earlier →
  suffixPairMatches ((λ f, JsString.toLowerCase (Field.name f)) <$> fields') fieldName p
  = true →
  fields' !! idx = Some fd →
  (∃ suffixPair,
     head TRIP_POINT_FIELDS = Some suffixPair
     ∧ findPointFieldPairs fields
       = Ret [ {| PointPair.defaultName := "pickup";
                  PointPair.lat := PointPair.mkCoord 0 "pickup_lat";
                  PointPair.lng := PointPair.mkCoord 1 "pickup_lng";
                  PointPair.suffix := suffixPair |};
               {| PointPair.defaultName := "dropoff";
                  PointPair.lat := PointPair.mkCoord 2 "dropoff_lat";
                  PointPair.lng := PointPair.mkCoord 3 "dropoff_lng";
                  PointPair.suffix := suffixPair |} ])
  ∧ (∃ entry,
       matchSuffixPairs (earlier ++ p :: later) fields'
         ((λ f, JsString.toLowerCase (Field.name f)) <$> fields') fieldName idx
       = Ret (Some entry)
       ∧ matchSuffixPairs (earlier ++ [p]) fields'
           ((λ f, JsString.toLowerCase (Field.name f)) <$> fields') fieldName idx
         = Ret (Some entry)
       ∧ PointPair.suffix entry = p
       ∧ PointPair.lat entry = PointPair.mkCoord idx (Field.name fd)
       ∧ removeSuffixAndDelimiters fieldName p.1 = Ret (PointPair.defaultName entry)).
Proof.
  intros Hnames Hhead Hlng Hplain Hno Hmatch Hfd. split.
  - destruct fields as [|f0 [|f1 [|f2 [|f3 [|f4 [|? ?]]]]]]; try discriminate.
    destruct f0 as [n0 ? ? ? ?], f1 as [n1 ? ? ? ?], f2 as [n2 ? ? ? ?],
             f3 as [n3 ? ? ? ?], f4 as [n4 ? ? ? ?].
    cbn in Hnames. injection Hnames as -> -> -> -> ->.
    destruct TRIP_POINT_FIELDS as [|suffixPair rest] eqn:HT;
      [by destruct Hhead|].
    exists suffixPair. split; [done|].
    assert (∀ fs names n i, n ∈ ["pickup_lng"; "dropoff_lng"; "name"] →
              matchSuffixPairs (suffixPair :: rest) fs names n i = Ret None) as Hnone.
    { intros fs names n i Hn. apply matchSuffixPairs_no_suffix.
      eapply Forall_impl; [exact Hlng|]. intros q Hq. cbn beta in Hq.
      rewrite forallb_forall in Hq. apply negb_true_iff, Hq.
      by apply list_elem_of_In. }
    unfold findPointFieldPairs. cbn [map length seq zip zip_with fold_left].
    unfold pushPointPair. rewrite HT.
    cbn [fst snd Field.name].
    change (JsString.toLowerCase "pickup_lat") with "pickup_lat".
    change (JsString.toLowerCase "pickup_lng") with "pickup_lng".
    change (JsString.toLowerCase "dropoff_lat") with "dropoff_lat".
    change (JsString.toLowerCase "dropoff_lng") with "dropoff_lng".
    change (JsString.toLowerCase "name") with "name".
    set (fs := [_; _; _; _; _]).
    set (names := [_; _; _; _; _]).
    assert (suffixPair = ("lat", "lng") ∨ suffixPair = ("_lat", "_lng")) as Hpair.
    { cbn in Hhead. destruct Hhead as [Hh|Hh]; injection Hh; auto. }
    assert (matchSuffixPairs (suffixPair :: rest) fs names "pickup_lat" 0
            = Ret (Some {| PointPair.defaultName := "pickup";
                           PointPair.lat := PointPair.mkCoord 0 "pickup_lat";
                           PointPair.lng := PointPair.mkCoord 1 "pickup_lng";
                           PointPair.suffix := suffixPair |})) as E0.
    { destruct Hpair as [->| ->]; reflexivity. }
    assert (matchSuffixPairs (suffixPair :: rest) fs names "dropoff_lat" 2
            = Ret (Some {| PointPair.defaultName := "dropoff";
                           PointPair.lat := PointPair.mkCoord 2 "dropoff_lat";
                           PointPair.lng := PointPair.mkCoord 3 "dropoff_lng";
                           PointPair.suffix := suffixPair |})) as E2.
    { destruct Hpair as [->| ->]; reflexivity. }
    cbn [mbind result_bind]. rewrite E0. cbn [mbind result_bind app].
    rewrite Hnone by (repeat constructor). cbn [mbind result_bind].
    rewrite E2. cbn [mbind result_bind app].
    rewrite Hnone by (repeat constructor). cbn [mbind result_bind].
    rewrite Hnone by (repeat constructor). reflexivity.
  - rewrite Forall_app in Hplain. destruct Hplain as [Hearlier Hp].
    inversion Hp as [|? ? Hp' _]; subst. clear Hp. rename Hp' into Hp.
    rewrite !matchSuffixPairs_skip by done.
    destruct (matchSuffixPairs_hit p later fields' fieldName idx fd Hp Hmatch Hfd)
      as (entry & E1 & ? & ? & ?).
    destruct (matchSuffixPairs_hit p [] fields' fieldName idx fd Hp Hmatch Hfd)
      as (entry' & E2 & ? & ? & ?).
    exists entry. repeat split; try done.
    rewrite E2. cbn [matchSuffixPairs] in E1, E2.
    destruct (JsString.endsWith fieldName p.1); [|discriminate].
    destruct (JsString.plain p.1 && JsString.plain p.2)%bool; [|discriminate].
    destruct (decide _); [|discriminate].
    congruence.
Qed.

(** ** The constructor and the invariants of a table *)

Section Invariants.
Context {G M L : Type}.
Context `{Settings, DataUtils, FilterUtils G L}.

(** A table that the constructor returns sits at a new location, has the
    canonical [allIndexes] as both index arrays, and a dense array of
    fields. *)
Lemma constructor_table (w w' : World.t G M) hashId info data color metadata l :
  constructor hashId info data color metadata w = Ret (l, w') →
  World.heap w !! l = None
  ∧ ∃ d, World.heap w' = <[l := d]> (World.heap w)
         ∧ World.console w' = World.console w
         ∧ canonical d
         ∧ Table.allData d = Data.rows data
         ∧ Table.filteredIndex d = Table.allIndexes d
         ∧ Table.filteredIndexForDomain d = Table.allIndexes d
         ∧ dense (Table.fields d)
         ∧ length (Table.fields d) = length (Data.fields data).
Proof.
  unfold constructor. intros Hrun.
  unfold mbind, Js_bind, lift in Hrun.
  destruct (findPointFieldPairs _) as [pairs| |]; try discriminate.
  unfold alloc in Hrun. injection Hrun as <- <-.
  split; [apply fresh_loc_unused|].
  eexists. repeat split.
  - unfold dense. cbn. apply Forall_fmap, Forall_forall. by eexists.
  - cbn. by rewrite length_fmap, length_imap.
Qed.

(** [filterTable] keeps both invariants. *)
Lemma filterTable_keeps_invariants (d d' : Table.t G M) :
  sameButFilterState d d' →
  (canonical d → canonical d') ∧ (dense (Table.fields d) → dense (Table.fields d')).
Proof.
  unfold canonical. intros (_ & _ & _ & _ & -> & -> & _ & -> & _). done.
Qed.

(** Writing a field inside the array or just behind it keeps the array
    dense. *)
Lemma assignSlot_dense fields fieldIdx newField :
  dense fields →
  0 ≤ fieldIdx ≤ Z.of_nat (length fields) →
  dense (assignSlot fields fieldIdx newField).
Proof.
  unfold dense, assignSlot. intros D Hi.
  rewrite decide_False by lia.
  destruct (decide (Z.to_nat fieldIdx < length fields)%nat).
  - apply Forall_insert; [done|by eexists].
  - case_decide; [|done].
    replace (Z.to_nat fieldIdx - length fields)%nat with 0%nat by lia.
    cbn. apply Forall_app. split; [done|]. repeat constructor. by eexists.
Qed.

End Invariants.

(** ** Runs on the small table *)

Import SpecModel.

(** The constructor makes [Sample.table] from [Sample.data]. *)
Lemma sample_constructor :
  constructor (L := unit) "k3x9" (Some Sample.info) Sample.data () () Sample.emptyWorld
  = Ret (0%nat, Sample.world).
Proof. vm_compute. reflexivity. Qed.

(** C2.  On the table of [Sample.world], a first call of [filterTable] with
    the filter [Sample.cpuRange] leaves [filteredIndex] at all three rows and
    sets [filteredIndexForDomain] to the one row in the range; a second call
    with the same filter, layers and options changes [filteredIndex] to that
    one row.  The second application is not a no-op on [filteredIndex]. *)
Theorem filterTable_twice_changes_filteredIndex :
  Sample.afterOneCall = Some ([0; 1; 2]%nat, [1%nat])
  ∧ Sample.afterTwoCalls = Some ([1%nat], [1%nat])
  ∧ Sample.afterTwoCalls ≠ Sample.afterOneCall.
Proof.
  assert (Sample.afterOneCall = Some ([0; 1; 2]%nat, [1%nat])) as E1
    by (vm_compute; reflexivity).
  assert (Sample.afterTwoCalls = Some ([1%nat], [1%nat])) as E2
    by (vm_compute; reflexivity).
  rewrite E1, E2. repeat split. discriminate.
Qed.

(** The hypotheses of the theorems above hold on the small table. *)

Lemma sample_table_stored : World.heap Sample.world !! 0%nat = Some Sample.table.
Proof. reflexivity. Defined.

Lemma sample_fields_dense : dense (Table.fields Sample.table).
Proof. repeat (constructor; [eexists; reflexivity|]). constructor. Defined.

Lemma sample_no_speed_column : unnamed "speed" (Table.fields Sample.table).
Proof.
  intros fd Hin. apply list_elem_of_In in Hin. cbn in Hin.
  destruct Hin as [Heq|[Heq|[Heq|[]]]]; injection Heq as <-; discriminate.
Defined.

Lemma filterTable_no_filters_witness :
  World.heap Sample.world !! 0%nat = Some Sample.table
  ∧ canonical Sample.table
  ∧ filterTable 0%nat [] () None Sample.world
    = Ret (0%nat,
           World.mk (<[0%nat := unfiltered (L := unit) None Sample.table]>
                       (World.heap Sample.world))
                    (World.console Sample.world))
  ∧ Table.filteredIndex (unfiltered (L := unit) None Sample.table) = [0; 1; 2]%nat.
Proof.
  assert (canonical Sample.table) as Hc by reflexivity.
  split; [exact sample_table_stored|]. split; [exact Hc|].
  pose proof (filterTable_no_filters Sample.world 0%nat Sample.table () None
                sample_table_stored Hc) as (Hrun & _ & _ & _ & Hidx & _).
  split; [exact Hrun|exact Hidx].
Defined.

Lemma ordinal_domain_ignores_filters_witness :
  World.heap Sample.world !! 0%nat = Some Sample.table
  ∧ truthy (SCALE_TYPES "ordinal") = true
  ∧ (Some "ordinal" = SCALE_TYPES "ordinal" ∨ Some "ordinal" = SCALE_TYPES "point")
  ∧ ∃ w',
      filterTableCalls 0%nat [([Sample.cpuRange], (), None); ([], (), None)] Sample.world
      = Ret ((), w')
      ∧ getColumnLayerDomain 0%nat (Sample.field "v" "integer" 0) "ordinal" Sample.world
        = Ret (Some (getOrdinalDomain (Table.allData Sample.table)
                       (Field.valueAccessor (Sample.field "v" "integer" 0))),
               Sample.world)
      ∧ getColumnLayerDomain 0%nat (Sample.field "v" "integer" 0) "ordinal" w'
        = Ret (Some (getOrdinalDomain (Table.allData Sample.table)
                       (Field.valueAccessor (Sample.field "v" "integer" 0))),
               w').
Proof.
  assert (truthy (SCALE_TYPES "ordinal") = true) as Ht by reflexivity.
  assert (Some "ordinal" = SCALE_TYPES "ordinal" ∨ Some "ordinal" = SCALE_TYPES "point")
    as Hs by (left; reflexivity).
  split; [exact sample_table_stored|]. split; [exact Ht|]. split; [exact Hs|].
  exact (ordinal_domain_ignores_filters Sample.world 0%nat Sample.table
           (Sample.field "v" "integer" 0) "ordinal"
           [([Sample.cpuRange], (), None); ([], (), None)]
           sample_table_stored Ht Hs).
Defined.

Lemma filterTableCPU_shadow_witness :
  World.heap Sample.world !! 0%nat = Some Sample.table
  ∧ (∃ f, f ∈ [Sample.gpuRange] ∧ Filter.gpu f = true)
  ∧ filterTableCPU 0%nat [Sample.gpuRange] () Sample.world
    = Ret (fresh (dom (World.heap Sample.world)),
           World.mk
             (<[0%nat := withCpuCache (shadowCopy [Sample.gpuRange] () Sample.table)
                           Sample.table]>
                (<[fresh (dom (World.heap Sample.world)) :=
                     shadowCopy [Sample.gpuRange] () Sample.table]>
                   (World.heap Sample.world)))
             (World.console Sample.world))
  ∧ Table.filteredIndex
      (withCpuCache (shadowCopy [Sample.gpuRange] () Sample.table) Sample.table)
    = Table.filteredIndex Sample.table.
Proof.
  assert (∃ f, f ∈ [Sample.gpuRange] ∧ Filter.gpu f = true) as Hg.
  { exists Sample.gpuRange. split; [apply list_elem_of_here|reflexivity]. }
  split; [exact sample_table_stored|]. split; [exact Hg|].
  pose proof (filterTableCPU_shadow Sample.world 0%nat Sample.table
                [Sample.gpuRange] () sample_table_stored Hg)
    as (Hrun & _ & _ & Hidx & _).
  split; [exact Hrun|exact Hidx].
Defined.

Lemma updateColumnField_frame_witness :
  World.heap Sample.world !! 0%nat = Some Sample.table
  ∧ 0 ≤ 1 < Z.of_nat (length (Table.fields Sample.table))
  ∧ updateColumnField 0%nat 1 (Sample.field "lat" "real" 1) Sample.world
    = Ret ((), World.mk
                 (<[0%nat := Table.set_fields
                               (<[Z.to_nat 1 := Some (Sample.field "lat" "real" 1)]>
                                  (Table.fields Sample.table)) Sample.table]>
                    (World.heap Sample.world))
                 (World.console Sample.world)).
Proof.
  assert (0 ≤ 1 < Z.of_nat (length (Table.fields Sample.table))) as Hi
    by (cbn; lia).
  split; [exact sample_table_stored|]. split; [exact Hi|].
  exact (proj1 (updateColumnField_frame Sample.world 0%nat Sample.table 1
                  (Sample.field "lat" "real" 1) sample_table_stored Hi)).
Defined.

(** C9.  On the table of [Sample.world], which has no column [speed],
    [getColumnField], [getColumnFieldIdx] and [getValue] do not return an
    empty result: each ends in a [TypeError], thrown by the [Console.error]
    call of [_assetField] because the binding [Console] of line 21 is
    [undefined]. *)
Theorem lookup_of_missing_column_throws :
  getColumnField 0%nat "speed" Sample.world = Raise TypeError
  ∧ getColumnFieldIdx 0%nat "speed" Sample.world = Raise TypeError
  ∧ getValue 0%nat "speed" 0 Sample.world = Raise TypeError.
Proof.
  destruct (missing_column_throws Sample.world 0%nat Sample.table "speed"
              sample_table_stored sample_fields_dense sample_no_speed_column)
    as (Hfield & Hidx & Hvalue).
  split; [exact Hfield|]. split; [exact Hidx|exact (Hvalue 0)].
Qed.

Lemma sortDatasetByColumn_missing_column_witness :
  World.heap Sample.world !! 0%nat = Some Sample.table
  ∧ dense (Table.fields Sample.table)
  ∧ unnamed "speed" (Table.fields Sample.table)
  ∧ sortDatasetByColumn 0%nat "speed" "DESCENDING" Sample.world
    = Ret (0%nat, Sample.world).
Proof.
  split; [exact sample_table_stored|]. split; [exact sample_fields_dense|].
  split; [exact sample_no_speed_column|].
  exact (sortDatasetByColumn_missing_column Sample.world 0%nat Sample.table
           "speed" "DESCENDING"
           sample_table_stored sample_fields_dense sample_no_speed_column).
Defined.

Lemma sortDatasetByColumn_unsort_witness :
  World.heap Sample.world !! 0%nat = Some Sample.table
  ∧ dense (Table.fields Sample.table)
  ∧ (∃ fd, Some fd ∈ Table.fields Sample.table ∧ Field.name fd = "v")
  ∧ SORT_ORDER "UNSORT" = Some "UNSORT"
  ∧ "UNSORT" ≠ ""
  ∧ sortDatasetByColumn 0%nat "v" "UNSORT" Sample.world
    = Ret (fresh (dom (World.heap Sample.world)),
           World.mk
             (<[fresh (dom (World.heap Sample.world)) :=
                  Table.set_sortOrder SortOrderNull
                    (Table.set_sortColumn (Some []) Sample.table)]>
                (World.heap Sample.world))
             (World.console Sample.world)).
Proof.
  assert (∃ fd, Some fd ∈ Table.fields Sample.table ∧ Field.name fd = "v") as Hv.
  { exists (Sample.field "v" "integer" 0). split; [apply list_elem_of_here|reflexivity]. }
  assert (SORT_ORDER "UNSORT" = Some "UNSORT") as Hu by reflexivity.
  assert ("UNSORT" ≠ "") as Hne by discriminate.
  split; [exact sample_table_stored|]. split; [exact sample_fields_dense|].
  split; [exact Hv|]. split; [exact Hu|]. split; [exact Hne|].
  exact (proj1 (sortDatasetByColumn_unsort Sample.world 0%nat Sample.table "v" "UNSORT"
                  sample_table_stored sample_fields_dense Hv Hu Hne)).
Defined.

Lemma findPointFieldPairs_first_match_witness :
  Field.name <$> Sample.tripFields
  = ["pickup_lat"; "pickup_lng"; "dropoff_lat"; "dropoff_lng"; "name"]
  ∧ (head TRIP_POINT_FIELDS = Some ("lat", "lng")
     ∨ head TRIP_POINT_FIELDS = Some ("_lat", "_lng"))
  ∧ Forall (λ q, forallb (λ n, negb (JsString.endsWith n q.1))
                   ["pickup_lng"; "dropoff_lng"; "name"] = true)
           TRIP_POINT_FIELDS
  ∧ Forall (λ q, plainPair q = true) ([("latitude", "longitude")] ++ [("_lat", "_lng")])
  ∧ Forall (λ q, suffixPairMatches
                   ((λ f, JsString.toLowerCase (Field.name f)) <$> Sample.tripFields)
                   "pickup_lat" q = false) [("latitude", "longitude")]
  ∧ suffixPairMatches
      ((λ f, JsString.toLowerCase (Field.name f)) <$> Sample.tripFields)
      "pickup_lat" ("_lat", "_lng") = true
  ∧ Sample.tripFields !! 0%nat = Some (Sample.field "pickup_lat" "real" 0)
  ∧ findPointFieldPairs Sample.tripFields
    = Ret [ {| PointPair.defaultName := "pickup";
               PointPair.lat := PointPair.mkCoord 0 "pickup_lat";
               PointPair.lng := PointPair.mkCoord 1 "pickup_lng";
               PointPair.suffix := ("_lat", "_lng") |};
            {| PointPair.defaultName := "dropoff";
               PointPair.lat := PointPair.mkCoord 2 "dropoff_lat";
               PointPair.lng := PointPair.mkCoord 3 "dropoff_lng";
               PointPair.suffix := ("_lat", "_lng") |} ]
  ∧ ∃ entry,
      matchSuffixPairs
        ([("latitude", "longitude")] ++ ("_lat", "_lng") :: [("_lat", "_lon")])
        Sample.tripFields
        ((λ f, JsString.toLowerCase (Field.name f)) <$> Sample.tripFields)
        "pickup_lat" 0
      = Ret (Some entry)
      ∧ PointPair.suffix entry = ("_lat", "_lng").
Proof.
  assert (Field.name <$> Sample.tripFields
          = ["pickup_lat"; "pickup_lng"; "dropoff_lat"; "dropoff_lng"; "name"])
    as Hnames by reflexivity.
  assert (head TRIP_POINT_FIELDS = Some ("lat", "lng")
          ∨ head TRIP_POINT_FIELDS = Some ("_lat", "_lng")) as Hhead
    by (right; reflexivity).
  assert (Forall (λ q, forallb (λ n, negb (JsString.endsWith n q.1))
                         ["pickup_lng"; "dropoff_lng"; "name"] = true)
                 TRIP_POINT_FIELDS) as Hlng
    by (repeat constructor).
  assert (Forall (λ q, plainPair q = true)
                 ([("latitude", "longitude")] ++ [("_lat", "_lng")]))
    as Hplain by (repeat constructor).
  assert (Forall (λ q, suffixPairMatches
                         ((λ f, JsString.toLowerCase (Field.name f)) <$> Sample.tripFields)
                         "pickup_lat" q = false) [("latitude", "longitude")])
    as Hno by (repeat constructor).
  assert (suffixPairMatches
            ((λ f, JsString.toLowerCase (Field.name f)) <$> Sample.tripFields)
            "pickup_lat" ("_lat", "_lng") = true) as Hmatch by reflexivity.
  assert (Sample.tripFields !! 0%nat = Some (Sample.field "pickup_lat" "real" 0)) as Hfd
    by reflexivity.
  split; [exact Hnames|]. split; [exact Hhead|]. split; [exact Hlng|].
  split; [exact Hplain|]. split; [exact Hno|]. split; [exact Hmatch|].
  split; [exact Hfd|].
  pose proof (findPointFieldPairs_first_match Sample.tripFields Sample.tripFields
                [("latitude", "longitude")] [("_lat", "_lon")] ("_lat", "_lng")
                "pickup_lat" 0%nat (Sample.field "pickup_lat" "real" 0)
                Hnames Hhead Hlng Hplain Hno Hmatch Hfd)
    as [(suffixPair & Hsp & Hpairs) (entry & Hentry & _ & Hsuffix & _)].
  split.
  - cbn in Hsp. injection Hsp as <-. exact Hpairs.
  - exists entry. split; [exact Hentry|exact Hsuffix].
Defined.

(** * Further properties of the table model *)

(** ** Lookup of a column that is there, and lookup across a hole *)

Section Lookup.
Context {G M : Type}.
Context `{Settings, DataUtils}.

Lemma findField_first columnName fields : ∀ i fd,
  firstNamed columnName fields i fd →
  findField columnName fields = Ret (Some fd).
Proof.
  induction fields as [|slot later IH]; intros i fd (Hi & Hn & Hr).
  - by rewrite lookup_nil in Hi.
  - destruct i as [|i].
    + cbn in Hi. injection Hi as ->. cbn. rewrite <- Hn. by rewrite String.eqb_refl.
    + destruct (Hr 0%nat ltac:(lia)) as (g & Hg & Hne). cbn in Hg.
      injection Hg as ->. cbn. rewrite (proj2 (String.eqb_neq _ _)) by done.
      apply (IH i fd). repeat split; [done..|].
      intros j Hj. apply (Hr (S j)). lia.
Qed.

Lemma findFieldIndexFrom_first columnName fields : ∀ i fd k,
  firstNamed columnName fields i fd →
  findFieldIndexFrom columnName k fields = Ret (k + Z.of_nat i).
Proof.
  induction fields as [|slot later IH]; intros i fd k (Hi & Hn & Hr).
  - by rewrite lookup_nil in Hi.
  - destruct i as [|i].
    + cbn in Hi. injection Hi as ->. cbn. rewrite <- Hn, String.eqb_refl.
      f_equal. lia.
    + destruct (Hr 0%nat ltac:(lia)) as (g & Hg & Hne). cbn in Hg.
      injection Hg as ->. cbn. rewrite (proj2 (String.eqb_neq _ _)) by done.
      rewrite (IH i fd (k + 1)).
      * f_equal. lia.
      * repeat split; [done..|]. intros j Hj. apply (Hr (S j)). lia.
Qed.

Lemma findField_hole columnName fields : ∀ i,
  fields !! i = Some None → reaches columnName fields i →
  findField columnName fields = Raise TypeError.
Proof.
  induction fields as [|slot later IH]; intros i Hi Hr.
  - by rewrite lookup_nil in Hi.
  - destruct i as [|i].
    + cbn in Hi. by injection Hi as ->.
    + destruct (Hr 0%nat ltac:(lia)) as (g & Hg & Hne). cbn in Hg.
      injection Hg as ->. cbn. rewrite (proj2 (String.eqb_neq _ _)) by done.
      apply (IH i); [done|]. intros j Hj. apply (Hr (S j)). lia.
Qed.

Lemma findFieldIndexFrom_hole columnName fields : ∀ i k,
  fields !! i = Some None → reaches columnName fields i →
  findFieldIndexFrom columnName k fields = Raise TypeError.
Proof.
  induction fields as [|slot later IH]; intros i k Hi Hr.
  - by rewrite lookup_nil in Hi.
  - destruct i as [|i].
    + cbn in Hi. by injection Hi as ->.
    + destruct (Hr 0%nat ltac:(lia)) as (g & Hg & Hne). cbn in Hg.
      injection Hg as ->. cbn. rewrite (proj2 (String.eqb_neq _ _)) by done.
      apply (IH i); [done|]. intros j Hj. apply (Hr (S j)). lia.
Qed.

(** X1.  When [fd], at position [i], is the first field named
    [columnName], [getColumnField] returns [fd], [getColumnFieldIdx] returns
    [i], and for the index of a row [getValue] returns what the accessor of
    [fd] makes of that row.  Nothing is written to the console and the store
    stays as it was; slots behind [i] are not read. *)
Theorem lookup_of_present_column (w : World.t G M) this d columnName i fd :
  World.heap w !! this = Some d →
  firstNamed columnName (Table.fields d) i fd →
  getColumnField this columnName w = Ret (Some fd, w)
  ∧ getColumnFieldIdx this columnName w = Ret (Z.of_nat i, w)
  ∧ ∀ rowIdx r,
      at_ (Table.allData d) rowIdx = Some r →
      getValue this columnName rowIdx w = Ret (Field.valueAccessor fd (Some r), w).
Proof.
  intros E F.
  assert (getColumnField this columnName w = Ret (Some fd, w)) as Hfield.
  { unfold getColumnField. js_step. rewrite (findField_first _ _ _ _ F). js_step.
    unfold _assetField. by rewrite bool_decide_eq_true_2 by by eexists. }
  split; [done|]. split.
  - unfold getColumnFieldIdx. js_step. unfold findFieldIndex.
    rewrite (findFieldIndexFrom_first _ _ _ _ 0 F). js_step.
    unfold _assetField. rewrite bool_decide_eq_true_2 by lia.
    cbn. reflexivity.
  - intros rowIdx r Hr. unfold getValue. erewrite run_bind by exact Hfield.
    cbn beta iota. js_step. by rewrite Hr.
Qed.

(** X2.  When a search for [columnName] comes to a slot that holds no field
    before it finds the name, it throws: [getColumnField],
    [getColumnFieldIdx], [getValue] and [sortDatasetByColumn] all end in a
    [TypeError]. *)
Theorem lookup_across_hole_throws (w : World.t G M) this d columnName i :
  World.heap w !! this = Some d →
  Table.fields d !! i = Some None →
  reaches columnName (Table.fields d) i →
  getColumnField this columnName w = Raise TypeError
  ∧ getColumnFieldIdx this columnName w = Raise TypeError
  ∧ (∀ rowIdx, getValue this columnName rowIdx w = Raise TypeError)
  ∧ ∀ mode, sortDatasetByColumn this columnName mode w = Raise TypeError.
Proof.
  intros E Hi Hr.
  assert (getColumnField this columnName w = Raise TypeError) as Hfield.
  { unfold getColumnField. js_step. by rewrite (findField_hole _ _ _ Hi Hr). }
  split; [done|]. split; [|split].
  - unfold getColumnFieldIdx. js_step. unfold findFieldIndex.
    by rewrite (findFieldIndexFrom_hole _ _ _ 0 Hi Hr).
  - intros rowIdx. unfold getValue. by erewrite run_bind_raise by exact Hfield.
  - intros mode. unfold sortDatasetByColumn. js_step. unfold findFieldIndex.
    by rewrite (findFieldIndexFrom_hole _ _ _ 0 Hi Hr).
Qed.

End Lookup.

(** ** [updateColumnField] at, behind and before the array *)

Section UpdateField.
Context {G M : Type}.

Lemma updateColumnField_run (w : World.t G M) this d fieldIdx newField :
  World.heap w !! this = Some d →
  updateColumnField this fieldIdx newField w
  = Ret ((), World.mk
               (<[this := Table.set_fields
                            (assignSlot (Table.fields d) fieldIdx newField) d]>
                  (World.heap w))
               (World.console w)).
Proof.
  intros E. unfold updateColumnField. js_step. by erewrite assign_run.
Qed.

Lemma assignSlot_lookup_at fields fieldIdx newField :
  0 ≤ fieldIdx ≤ maxArrayIndex →
  assignSlot fields fieldIdx newField !! Z.to_nat fieldIdx = Some (Some newField).
Proof.
  intros Hi. unfold assignSlot. rewrite decide_False by lia.
  destruct (decide (Z.to_nat fieldIdx < length fields)%nat).
  - by apply list_lookup_insert_eq.
  - rewrite decide_True by lia. rewrite lookup_app_r by lia. rewrite lookup_app_r by (rewrite length_replicate; lia).
    rewrite length_replicate.
    by replace (Z.to_nat fieldIdx - length fields
                - (Z.to_nat fieldIdx - length fields))%nat with 0%nat by lia.
Qed.

Lemma assignSlot_lookup_before fields fieldIdx newField (j : nat) :
  0 ≤ fieldIdx → (j < Z.to_nat fieldIdx)%nat → (j < length fields)%nat →
  assignSlot fields fieldIdx newField !! j = fields !! j.
Proof.
  intros Hi Hj Hl. unfold assignSlot. rewrite decide_False by lia.
  destruct (decide (Z.to_nat fieldIdx < length fields)%nat).
  - apply list_lookup_insert_ne. lia.
  - case_decide; [|done]. by apply lookup_app_l.
Qed.


(** X3.  A field written at a position inside the array or just behind it,
    the position being an array index, is found again: when the search for
    its name gets as far as that position, [getColumnField] with the name of
    the new field returns the new field, [getColumnFieldIdx] returns the
    position, and for the index of a row [getValue] returns what the
    accessor of the new field makes of that row. *)
Theorem updateColumnField_then_lookup (w : World.t G M) this d fieldIdx newField :
  World.heap w !! this = Some d →
  0 ≤ fieldIdx ≤ Z.of_nat (length (Table.fields d)) →
  fieldIdx ≤ maxArrayIndex →
  reaches (Field.name newField) (Table.fields d) (Z.to_nat fieldIdx) →
  ∃ w1,
    updateColumnField this fieldIdx newField w = Ret ((), w1)
    ∧ getColumnField this (Field.name newField) w1 = Ret (Some newField, w1)
    ∧ getColumnFieldIdx this (Field.name newField) w1 = Ret (fieldIdx, w1)
    ∧ ∀ rowIdx r,
        at_ (Table.allData d) rowIdx = Some r →
        getValue this (Field.name newField) rowIdx w1
        = Ret (Field.valueAccessor newField (Some r), w1).
Proof.
  intros E Hi Hmax Hr. eexists. split; [by apply updateColumnField_run|].
  set (d1 := Table.set_fields _ d).
  set (w1 := World.mk _ _).
  assert (World.heap w1 !! this = Some d1) as E1 by apply lookup_insert_eq.
  assert (firstNamed (Field.name newField) (Table.fields d1) (Z.to_nat fieldIdx) newField)
    as F.
  { split; [apply assignSlot_lookup_at; lia|]. split; [done|].
    intros j Hj. destruct (Hr j Hj) as (g & Hg & Hne). exists g. split; [|done].
    cbn. rewrite assignSlot_lookup_before; [done|lia|done|].
    by apply lookup_lt_Some in Hg. }
  assert (getColumnField this (Field.name newField) w1 = Ret (Some newField, w1))
    as Hfield.
  { unfold getColumnField. js_step. rewrite (findField_first _ _ _ _ F). js_step.
    unfold _assetField. by rewrite bool_decide_eq_true_2 by by eexists. }
  split; [done|]. split.
  - unfold getColumnFieldIdx. js_step. unfold findFieldIndex.
    rewrite (findFieldIndexFrom_first _ _ _ _ 0 F). js_step.
    unfold _assetField. rewrite bool_decide_eq_true_2 by lia.
    replace (0 + Z.of_nat (Z.to_nat fieldIdx)) with fieldIdx by lia.
    reflexivity.
  - intros rowIdx r Hrow. unfold getValue. erewrite run_bind by exact Hfield.
    cbn beta iota. js_step. subst d1. cbn [Table.allData Table.set_fields].
    by rewrite Hrow.
Qed.



End UpdateField.

(** ** What [filterTable] and [filterTableCPU] change *)

Section FilterState.
Context {G M L : Type}.
Context `{FilterUtils G L}.

(** X6.  For every filter list, [filterTable] returns its receiver, throws
    nothing, writes nothing to the console and allocates nothing.  Of the
    receiver it assigns [filterRecord], [gpuFilter], [filteredIndex] and
    [filteredIndexForDomain] and leaves every other attribute, the rows and
    the fields among them; the new filter record and GPU filter parameters
    are those of the filters given, and every other object of the store is
    as before. *)
Theorem filterTable_changes_filter_state_only (w : World.t G M) this d filters
    (layers : L) opt :
  World.heap w !! this = Some d →
  ∃ d',
    filterTable this filters layers opt w
    = Ret (this, World.mk (<[this := d']> (World.heap w)) (World.console w))
    ∧ sameButFilterState d d'
    ∧ Table.filterRecord d'
      = Some (getFilterRecord (Table.id d) filters (default FilterOpt.empty opt))
    ∧ Table.gpuFilter d' = getGpuFilterProps filters (Table.id d) (Table.fields d)
    ∧ ∀ l, l ≠ this → <[this := d']> (World.heap w) !! l = World.heap w !! l.
Proof.
  intros E. eexists. split; [by apply filterTable_run|].
  case_decide as Hl.
  - destruct filters; [|done]. repeat split.
    intros l Hne. by apply lookup_insert_ne.
  - repeat split. intros l Hne. by apply lookup_insert_ne.
Qed.

(** X7.  When the filter list is not empty and the diff of the new filter
    record against the stored one reports no change in either group, no scan
    is made: [filteredIndexForDomain] stays as it is and [filteredIndex] is
    set to it. *)
Theorem filterTable_unchanged_filters (w : World.t G M) this d filters
    (layers : L) opt :
  World.heap w !! this = Some d →
  length filters ≠ 0%nat →
  diffFilters (getFilterRecord (Table.id d) filters (default FilterOpt.empty opt))
              (Table.filterRecord d)
  = {| Changed.dynamicDomain := false; Changed.cpu := false |} →
  ∃ d',
    filterTable this filters layers opt w
    = Ret (this, World.mk (<[this := d']> (World.heap w)) (World.console w))
    ∧ Table.filteredIndex d' = Table.filteredIndexForDomain d
    ∧ Table.filteredIndexForDomain d' = Table.filteredIndexForDomain d.
Proof.
  intros E Hl Hdiff. eexists. split; [by apply filterTable_run|].
  rewrite decide_False by done.
  unfold refiltered, computeFilterResult. rewrite Hdiff. done.
Qed.

(** X8.  Three calls of [filterTable] with the same non-empty filter list,
    layers and options, under a diff that reports no change between a record
    and itself: after the second call both index arrays are the
    [filteredIndexForDomain] that the first call left, and the third call
    changes neither of them. *)
Theorem filterTable_repeated (w : World.t G M) this d filters (layers : L) opt :
  World.heap w !! this = Some d →
  length filters ≠ 0%nat →
  (∀ r, diffFilters r (Some r) = {| Changed.dynamicDomain := false; Changed.cpu := false |}) →
  ∃ w1 w2 w3 d1 d2 d3,
    filterTable this filters layers opt w = Ret (this, w1)
    ∧ filterTable this filters layers opt w1 = Ret (this, w2)
    ∧ filterTable this filters layers opt w2 = Ret (this, w3)
    ∧ World.heap w1 !! this = Some d1
    ∧ World.heap w2 !! this = Some d2
    ∧ World.heap w3 !! this = Some d3
    ∧ Table.filteredIndex d2 = Table.filteredIndexForDomain d1
    ∧ Table.filteredIndexForDomain d2 = Table.filteredIndexForDomain d1
    ∧ Table.filteredIndex d3 = Table.filteredIndex d2
    ∧ Table.filteredIndexForDomain d3 = Table.filteredIndexForDomain d2.
Proof.
  intros E Hlen Hdiff.
  pose proof (filterTable_run w this d filters layers opt E) as R1.
  rewrite decide_False in R1 by done.
  eexists _, _, _, _, _, _. split; [exact R1|].
  split; [apply filterTable_run; apply lookup_insert_eq|].
  split; [apply filterTable_run; apply lookup_insert_eq|].
  cbn [World.heap]. rewrite !decide_False by done.
  split; [apply lookup_insert_eq|]. split; [apply lookup_insert_eq|].
  split; [apply lookup_insert_eq|].
  destruct (refiltered_again filters layers opt d Hdiff) as [A1 A2].
  destruct (refiltered_again filters layers opt (refiltered filters layers opt d) Hdiff)
    as [B1 B2].
  cbn zeta in A1, A2, B1, B2. repeat split; congruence.
Qed.

(** X9.  When no filter of the list is flagged [gpu], the empty list
    included, [filterTableCPU] makes no copy: it returns its receiver,
    allocates nothing and assigns the two cache fields only.  [filteredIdxCPU]
    becomes [allIndexes] for the empty list and the [filteredIndex] of the
    receiver otherwise. *)
Theorem filterTableCPU_without_gpu_filter (w : World.t G M) this d filters
    (layers : L) :
  World.heap w !! this = Some d →
  (∀ f, f ∈ filters → Filter.gpu f = false) →
  filterTableCPU this filters layers w
  = Ret (this,
         World.mk
           (<[this :=
                Table.set_filterRecordCPU
                  (Some (getFilterRecord (Table.id d) filters cpuOptions))
                  (Table.set_filteredIdxCPU
                     (Some (if decide (length filters = 0%nat)
                            then Table.allIndexes d else Table.filteredIndex d))
                     d)]> (World.heap w))
           (World.console w)).
Proof.
  intros E Hgpu. unfold filterTableCPU.
  destruct (decide (length filters = 0%nat)).
  - do 2 js_step. cbn. by rewrite insert_insert_eq.
  - assert (existsb Filter.gpu filters = false) as ->.
    { apply not_true_is_false. intros Hex. apply existsb_exists in Hex as (f & Hin & Hf).
      apply list_elem_of_In in Hin. rewrite (Hgpu f Hin) in Hf. discriminate. }
    cbn [negb]. do 2 js_step. cbn. by rewrite insert_insert_eq.
Qed.

End FilterState.

(** ** Domains of a column *)

Section Domains.
Context {G M L N T : Type}.
Context `{Settings, DataUtils, ScaleUtils, FilterUtils G L, FilterDomainUtils N T}.

(** X10.  For a scale type that is no truthy entry of [SCALE_TYPES],
    [getColumnLayerDomain] does not come to return [null]: the
    [Console.error] call of line 312 throws a [TypeError], the binding
    [Console] of line 21 being [undefined]. *)
Theorem getColumnLayerDomain_unsupported (w : World.t G M) this d field scaleType :
  World.heap w !! this = Some d →
  truthy (SCALE_TYPES scaleType) = false →
  getColumnLayerDomain this field scaleType w = Raise TypeError.
Proof.
  intros E Ht. unfold getColumnLayerDomain. js_step. rewrite Ht. cbn [negb].
  by apply run_bind_raise.
Qed.


(** The filter domain of a column reads, of the table, the rows only. *)
Lemma getColumnFilterDomain_rows (w w' : World.t G M) this d d' field :
  World.heap w !! this = Some d →
  World.heap w' !! this = Some d' →
  Table.allData d' = Table.allData d →
  ∃ r : FieldDomain.t N T,
    getColumnFilterDomain this field w = Ret (r, w)
    ∧ getColumnFilterDomain this field w' = Ret (r, w').
Proof.
  intros E E' Hrows. unfold getColumnFilterDomain.
  erewrite run_bind by by apply load_run.
  erewrite (run_bind _ _ w') by by apply load_run.
  rewrite Hrows.
  repeat (match goal with |- context [if ?b then _ else _] => destruct b end);
    eexists; split; reflexivity.
Qed.

(** X12.  [getColumnFilterDomain] returns a domain for every field, throws
    nothing and leaves the store as it was; the domain is computed from all
    rows, so it is the same before and after any sequence of [filterTable]
    calls. *)
Theorem filter_domain_ignores_filters (w : World.t G M) this d field
    (calls : list (list Filter.t * L * option FilterOpt.t)) :
  World.heap w !! this = Some d →
  ∃ w' (r : FieldDomain.t N T),
    filterTableCalls this calls w = Ret ((), w')
    ∧ getColumnFilterDomain this field w = Ret (r, w)
    ∧ getColumnFilterDomain this field w' = Ret (r, w').
Proof.
  intros E.
  destruct (filterTableCalls_run calls w this d E) as (d' & Hrun & F).
  destruct F as (_ & _ & _ & _ & Hrows & _).
  edestruct (getColumnFilterDomain_rows w
               (World.mk (<[this := d']> (World.heap w)) (World.console w))
               this d d' field E) as (r & R1 & R2);
    [apply lookup_insert_eq|done|].
  eexists _, r. split; [exact Hrun|]. by split.
Qed.

End Domains.

(** ** What [findPointFieldPairs] returns *)

Section PointPairs.
Context `{Settings}.

Lemma findIndexFrom_found {A : Type} (p : A → bool) (l : list A) : ∀ i,
  findIndexFrom p i l > -1 → 0 ≤ i →
  ∃ x, l !! Z.to_nat (findIndexFrom p i l - i) = Some x ∧ p x = true.
Proof.
  induction l as [|x r IH]; intros i Hfound Hi; cbn in *; [lia|].
  destruct (p x) eqn:Hp.
  - exists x. by replace (i - i) with 0 by lia.
  - destruct (IH (i + 1) Hfound ltac:(lia)) as (y & Hy & Hpy).
    pose proof (findIndexFrom_range p r (i + 1) Hfound ltac:(lia)).
    exists y. split; [|done].
    replace (Z.to_nat (findIndexFrom p (i + 1) r - i))
      with (S (Z.to_nat (findIndexFrom p (i + 1) r - (i + 1)))) by lia.
    done.
Qed.

(** An entry that the search returns comes from a suffix pair of the list
    that matches the field. *)
Lemma matchSuffixPairs_sound suffixPairs fields allNames fieldName idx p :
  matchSuffixPairs suffixPairs fields allNames fieldName idx = Ret (Some p) →
  ∃ f g,
    fields !! idx = Some f
    ∧ PointPair.lat p = PointPair.mkCoord idx (Field.name f)
    ∧ fields !! PointPair.fieldIdx (PointPair.lng p) = Some g
    ∧ PointPair.value (PointPair.lng p) = Field.name g
    ∧ PointPair.suffix p ∈ suffixPairs
    ∧ JsString.endsWith fieldName (PointPair.suffix p).1 = true
    ∧ allNames !! PointPair.fieldIdx (PointPair.lng p)
      = Some (JsString.replaceAtEnd fieldName (PointPair.suffix p).1 (PointPair.suffix p).2)
    ∧ removeSuffixAndDelimiters fieldName (PointPair.suffix p).1
      = Ret (PointPair.defaultName p).
Proof.
  induction suffixPairs as [|q later IH]; cbn [matchSuffixPairs]; [done|].
  intros Hrun.
  destruct (JsString.endsWith fieldName q.1) eqn:Hends; last first.
  { destruct (IH Hrun) as (f & g & ? & ? & ? & ? & ? & ? & ? & ?).
    exists f, g. repeat split; try done. by right. }
  destruct (JsString.plain q.1 && JsString.plain q.2)%bool; [|done].
  destruct (decide _) as [Hfound|]; last first.
  { destruct (IH Hrun) as (f & g & ? & ? & ? & ? & ? & ? & ? & ?).
    exists f, g. repeat split; try done. by right. }
  destruct (removeSuffixAndDelimiters fieldName q.1) as [defaultName| |] eqn:Hname;
    [|done..].
  cbn [mbind result_bind] in Hrun.
  destruct (fields !! idx) as [f|] eqn:Hf; [|done].
  destruct (at_ fields _) as [g|] eqn:Hg; [|done].
  injection Hrun as <-. cbn.
  unfold findIndex in *.
  pose proof (findIndexFrom_range _ _ 0 Hfound ltac:(lia)) as Hrange.
  destruct (findIndexFrom_found _ _ 0 Hfound ltac:(lia)) as (x & Hx & Heq).
  apply String.eqb_eq in Heq. subst x. rewrite Z.sub_0_r in Hx.
  unfold at_ in Hg. rewrite decide_True in Hg by lia.
  exists f, g. repeat split; try done. by left.
Qed.

Lemma fold_pushPointPair_stuck fields allNames es (r : result (list PointPair.t)) :
  (∀ acc, r ≠ Ret acc) →
  ∀ res, fold_left (pushPointPair fields allNames) es r ≠ Ret res.
Proof.
  revert r. induction es as [|e es IH]; intros r Hr res; cbn; [apply Hr|].
  apply IH. intros acc. unfold pushPointPair. by destruct r as [c| |]; [destruct (Hr c)|..].
Qed.

(** The entries that the reducer adds, in the order of the fields. *)
Lemma fold_pushPointPair_added fields allNames es : ∀ acc res,
  fold_left (pushPointPair fields allNames) es (Ret acc) = Ret res →
  ∃ added,
    res = acc ++ added
    ∧ sublist ((λ p, PointPair.fieldIdx (PointPair.lat p)) <$> added) (es.*1)
    ∧ Forall (λ p, ∃ e, e ∈ es
                   ∧ matchSuffixPairs TRIP_POINT_FIELDS fields allNames e.2 e.1
                     = Ret (Some p)) added.
Proof.
  induction es as [|e es IH]; intros acc res Hrun; cbn in Hrun.
  - injection Hrun as <-. exists []. rewrite app_nil_r. repeat split; constructor.
  - destruct (matchSuffixPairs TRIP_POINT_FIELDS fields allNames e.2 e.1)
      as [[p|]| |] eqn:Hm; cbn [mbind result_bind] in Hrun.
    + destruct (IH _ _ Hrun) as (added & -> & Hsub & Hall).
      exists (p :: added). rewrite <- app_assoc. split; [done|]. split.
      * destruct (matchSuffixPairs_sound _ _ _ _ _ _ Hm) as (f & g & _ & Hlat & _).
        cbn. rewrite Hlat. cbn. by apply sublist_skip.
      * constructor; [exists e; split; [left|done]|].
        eapply Forall_impl; [exact Hall|]. intros p' (e' & ? & ?).
        exists e'. split; [by right|done].
    + destruct (IH _ _ Hrun) as (added & -> & Hsub & Hall).
      exists added. split; [done|]. split; [by apply sublist_cons|].
      eapply Forall_impl; [exact Hall|]. intros p' (e' & ? & ?).
      exists e'. split; [by right|done].
    + by apply fold_pushPointPair_stuck in Hrun.
    + by apply fold_pushPointPair_stuck in Hrun.
Qed.

(** X13.  When [findPointFieldPairs] returns, each field is the first
    element of at most one entry, and the entries come in the order of those
    fields.  Each entry pairs two fields of the array in the sense of
    [pairsFields]: names are compared in lower case, and recorded as they
    are written. *)
Theorem findPointFieldPairs_pairs fields pairs :
  findPointFieldPairs fields = Ret pairs →
  sublist ((λ p, PointPair.fieldIdx (PointPair.lat p)) <$> pairs)
          (seq 0 (length fields))
  ∧ Forall (pairsFields fields) pairs.
Proof.
  unfold findPointFieldPairs. intros Hrun.
  change (map (λ f, JsString.toLowerCase (Field.name f)) fields)
    with ((λ f, JsString.toLowerCase (Field.name f)) <$> fields) in Hrun.
  set (allNames := _ <$> fields) in *.
  destruct (fold_pushPointPair_added _ _ _ _ _ Hrun) as (added & -> & Hsub & Hall).
  cbn [app]. split.
  - rewrite fst_zip in Hsub by (rewrite length_seq; lia).
    subst allNames. by rewrite length_fmap in Hsub.
  - eapply Forall_impl; [exact Hall|]. intros p ([i nm] & Hin & Hm).
    apply list_elem_of_lookup in Hin as (k & Hk).
    apply lookup_zip_with_Some in Hk as (i' & nm' & [= -> ->] & Hi & Hnm).
    apply lookup_seq in Hi as [-> _]. cbn in Hm, Hnm.
    subst allNames. rewrite list_lookup_fmap in Hnm.
    destruct (matchSuffixPairs_sound _ _ _ _ _ _ Hm)
      as (f & g & Hf & Hlat & Hg & Hgv & Hsuf & Hends & Hpartner & Hname).
    rewrite Hf in Hnm. cbn in Hnm. injection Hnm as <-.
    rewrite list_lookup_fmap, Hg in Hpartner. cbn in Hpartner.
    injection Hpartner as Hpartner.
    exists f, g. rewrite Hlat. cbn. by repeat split.
Qed.

(** X14.  When no lower-case field name ends with the first suffix of any
    pair of [TRIP_POINT_FIELDS], there are no point pairs; an empty array of
    fields and an empty list of suffix pairs are instances. *)
Theorem findPointFieldPairs_no_suffix fields :
  (∀ f q, f ∈ fields → q ∈ TRIP_POINT_FIELDS →
     JsString.endsWith (JsString.toLowerCase (Field.name f)) q.1 = false) →
  findPointFieldPairs fields = Ret [].
Proof.
  intros Hno. unfold findPointFieldPairs.
  change (map (λ f, JsString.toLowerCase (Field.name f)) fields)
    with ((λ f, JsString.toLowerCase (Field.name f)) <$> fields).
  set (allNames := _ <$> fields).
  assert (∀ es, (∀ e, e ∈ es → e.2 ∈ allNames) →
            fold_left (pushPointPair fields allNames) es (Ret []) = Ret []) as Hfold.
  { induction es as [|e es IH]; intros Hes; [done|]. cbn.
    rewrite matchSuffixPairs_no_suffix.
    - cbn. apply IH. intros e' ?. apply Hes. by right.
    - apply Forall_forall. intros q Hq.
      specialize (Hes e ltac:(left)). subst allNames.
      apply list_elem_of_fmap in Hes as (f & -> & Hf). by apply Hno. }
  apply Hfold. intros [i nm] Hin.
  apply list_elem_of_lookup in Hin as (k & Hk).
  apply lookup_zip_with_Some in Hk as (i' & nm' & [= -> ->] & _ & Hnm).
  cbn. by apply list_elem_of_lookup_2 in Hnm.
Qed.

(** With plain suffix pairs the search through them returns, for every
    field of the array. *)
Lemma matchSuffixPairs_returns suffixPairs fields fieldName idx f :
  Forall (λ q, plainPair q = true) suffixPairs →
  fields !! idx = Some f →
  ∃ found,
    matchSuffixPairs suffixPairs fields
      ((λ f, JsString.toLowerCase (Field.name f)) <$> fields) fieldName idx
    = Ret found.
Proof.
  intros Hplain Hf. induction Hplain as [|q later Hq _ IH]; cbn [matchSuffixPairs].
  - by eexists.
  - destruct (JsString.endsWith fieldName q.1); [|exact IH].
    pose proof Hq as Hq'. unfold plainPair in Hq'. rewrite Hq'.
    apply andb_true_iff in Hq' as [Hq1 _].
    destruct (decide _) as [Hfound|]; [|exact IH].
    unfold removeSuffixAndDelimiters. rewrite Hq1. cbn [mbind result_bind].
    rewrite Hf.
    set (partnerIdx := findIndex _ _) in *.
    pose proof (findIndexFrom_range _ _ 0 Hfound ltac:(lia)) as Hr.
    rewrite length_fmap in Hr. fold (findIndex (String.eqb
      (JsString.replaceAtEnd fieldName q.1 q.2))
      ((λ f, JsString.toLowerCase (Field.name f)) <$> fields)) in Hr.
    fold partnerIdx in Hr.
    destruct (at_ fields partnerIdx) as [g|] eqn:Hg; [by eexists|].
    unfold at_ in Hg. rewrite decide_True in Hg by lia.
    apply lookup_ge_None in Hg. lia.
Qed.

(** With plain suffix pairs [findPointFieldPairs] returns. *)
Lemma findPointFieldPairs_returns fields :
  Forall (λ q, plainPair q = true) TRIP_POINT_FIELDS →
  ∃ pairs, findPointFieldPairs fields = Ret pairs.
Proof.
  intros Hplain. unfold findPointFieldPairs.
  change (map (λ f, JsString.toLowerCase (Field.name f)) fields)
    with ((λ f, JsString.toLowerCase (Field.name f)) <$> fields).
  set (allNames := _ <$> fields).
  assert (∀ es acc, (∀ e, e ∈ es → is_Some (fields !! e.1)) →
            ∃ pairs, fold_left (pushPointPair fields allNames) es (Ret acc)
                     = Ret pairs) as Hfold.
  { induction es as [|e es IH]; intros acc Hes; [by eexists|]. cbn.
    destruct (Hes e ltac:(left)) as [f Hf].
    destruct (matchSuffixPairs_returns TRIP_POINT_FIELDS fields e.2 e.1 f Hplain Hf)
      as [found Hfound].
    fold allNames in Hfound. rewrite Hfound. cbn.
    apply IH. intros e' ?. apply Hes. by right. }
  apply Hfold. intros [i nm] Hin.
  apply list_elem_of_lookup in Hin as (k & Hk).
  apply lookup_zip_with_Some in Hk as (i' & nm' & [= -> ->] & Hi & _).
  apply lookup_seq in Hi as [-> Hlt]. cbn.
  apply lookup_lt_is_Some_2. subst allNames. rewrite length_fmap in Hlt. lia.
Qed.

End PointPairs.

(** ** The constructor *)

Section Constructor.
Context {G M L : Type}.
Context `{Settings, DataUtils, FilterUtils G L}.

(** X15.  When the suffixes of [TRIP_POINT_FIELDS] are plain text, the
    constructor returns a new object.  Its id and label are those of
    [info], or the generated id and ['new dataset']; its rows are the rows
    given; [allIndexes], [filteredIndex] and [filteredIndexForDomain] are the
    ascending sequence of all row indexes; there is no filter record and no
    CPU cache; there is one field for each field descriptor, with the name,
    type and format of the descriptor and its position as [fieldIdx]; and
    [fieldPairs] is what [findPointFieldPairs] makes of those fields. *)
Theorem constructor_establishes (w : World.t G M) hashId info data color metadata :
  Forall (λ q, plainPair q = true) TRIP_POINT_FIELDS →
  ∃ d fs,
    constructor (L := L) hashId info data color metadata w
    = Ret (fresh (dom (World.heap w)),
           World.mk (<[fresh (dom (World.heap w)) := d]> (World.heap w))
                    (World.console w))
    ∧ World.heap w !! fresh (dom (World.heap w)) = None
    ∧ Table.id d = default hashId (Info.id (default Info.empty info))
    ∧ Table.label d = default "new dataset" (Info.label (default Info.empty info))
    ∧ Table.allData d = Data.rows data
    ∧ Table.allIndexes d = seq 0 (length (Data.rows data))
    ∧ Table.filteredIndex d = seq 0 (length (Data.rows data))
    ∧ Table.filteredIndexForDomain d = seq 0 (length (Data.rows data))
    ∧ Table.filterRecord d = None
    ∧ Table.filteredIdxCPU d = None
    ∧ Table.filterRecordCPU d = None
    ∧ Table.fields d = Some <$> fs
    ∧ length fs = length (Data.fields data)
    ∧ findPointFieldPairs fs = Ret (Table.fieldPairs d)
    ∧ ∀ (i : nat) fi, Data.fields data !! i = Some fi →
        ∃ f, fs !! i = Some f
             ∧ Field.name f = FieldInput.name fi
             ∧ Field.type f = FieldInput.type fi
             ∧ Field.format f = FieldInput.format fi
             ∧ Field.fieldIdx f = i.
Proof.
  intros Hplain. unfold constructor.
  set (fs := imap _ (Data.fields data)).
  destruct (findPointFieldPairs_returns fs Hplain) as [pairs Hpairs].
  eexists _, fs. split.
  { unfold mbind, Js_bind, lift. rewrite Hpairs. unfold alloc. reflexivity. }
  split; [apply fresh_loc_unused|]. cbn.
  repeat split; [by subst fs; rewrite length_imap|exact Hpairs|].
  intros i fi Hfi. subst fs. rewrite list_lookup_imap, Hfi. cbn.
  eexists. by repeat split.
Qed.

End Constructor.

(** ** Sorting a dataset by a column *)

Section SortOrder.
Context {A : Type} (cmp : A → A → Z).

Lemma insertBy_Permutation x l : insertBy cmp x l ≡ₚ x :: l.
Proof.
  induction l as [|y r IH]; cbn; [done|].
  case_decide; [done|]. rewrite IH. apply Permutation_swap.
Qed.

Lemma stableSort_Permutation l : stableSort cmp l ≡ₚ l.
Proof.
  induction l as [|x r IH]; cbn; [done|].
  fold (stableSort cmp r). by rewrite insertBy_Permutation, IH.
Qed.

Lemma insertBy_StronglySorted x l :
  (∀ b, b ∈ l → cmp x b ≤ 0 ∨ cmp b x ≤ 0) →
  (∀ b c, b ∈ l → c ∈ l → cmp x b ≤ 0 → cmp b c ≤ 0 → cmp x c ≤ 0) →
  StronglySorted (λ a b, cmp a b ≤ 0) l →
  StronglySorted (λ a b, cmp a b ≤ 0) (insertBy cmp x l).
Proof.
  intros Htotal Htrans. induction 1 as [|y r Hr IH Hy]; cbn.
  - by repeat constructor.
  - case_decide as Hxy.
    + constructor; [by constructor|]. constructor; [done|].
      apply Forall_forall. intros z Hz. rewrite Forall_forall in Hy.
      apply (Htrans y z); [left|by right|done|by apply Hy].
    + constructor.
      * apply IH.
        -- intros b Hb. apply Htotal. by right.
        -- intros b c Hb Hc. apply Htrans; by right.
      * rewrite insertBy_Permutation. constructor; [|done].
        destruct (Htotal y ltac:(left)); [lia|done].
Qed.

Lemma stableSort_StronglySorted l :
  (∀ a b, a ∈ l → b ∈ l → cmp a b ≤ 0 ∨ cmp b a ≤ 0) →
  (∀ a b c, a ∈ l → b ∈ l → c ∈ l → cmp a b ≤ 0 → cmp b c ≤ 0 → cmp a c ≤ 0) →
  StronglySorted (λ a b, cmp a b ≤ 0) (stableSort cmp l).
Proof.
  induction l as [|x r IH]; intros Htotal Htrans; cbn; [constructor|].
  fold (stableSort cmp r). apply insertBy_StronglySorted.
  - intros b Hb. rewrite stableSort_Permutation in Hb.
    apply Htotal; [left|by right].
  - intros b c Hb Hc. rewrite stableSort_Permutation in Hb, Hc.
    apply Htrans; [left|by right|by right].
  - apply IH.
    + intros a b Ha Hb. apply Htotal; by right.
    + intros a b c Ha Hb Hc. apply Htrans; by right.
Qed.

Lemma stableSort_of_Sorted l :
  Sorted (λ a b, cmp a b ≤ 0) l → stableSort cmp l = l.
Proof.
  induction 1 as [|x r Hr IH Hhd]; cbn; [done|].
  fold (stableSort cmp r). rewrite IH.
  destruct Hhd as [|y r' Hxy]; cbn; [done|]. by rewrite decide_True.
Qed.

End SortOrder.

Lemma insertBy_keyed {A K : Type} (cmp : K → K → Z) (key : A → K) x l :
  insertBy (λ p q : A * K, cmp p.2 q.2) (x, key x) ((λ a, (a, key a)) <$> l)
  = (λ a, (a, key a)) <$> insertBy (λ a b, cmp (key a) (key b)) x l.
Proof.
  induction l as [|y r IH]; cbn; [done|].
  case_decide; [done|]. cbn. by rewrite IH.
Qed.

Lemma stableSort_keyed {A K : Type} (cmp : K → K → Z) (key : A → K) l :
  (stableSort (λ p q : A * K, cmp p.2 q.2) ((λ a, (a, key a)) <$> l)).*1
  = stableSort (λ a b, cmp (key a) (key b)) l.
Proof.
  assert (stableSort (λ p q : A * K, cmp p.2 q.2) ((λ a, (a, key a)) <$> l)
          = (λ a, (a, key a)) <$> stableSort (λ a b, cmp (key a) (key b)) l) as ->.
  { induction l as [|x r IH]; cbn; [done|].
    fold (stableSort (λ p q : A * K, cmp p.2 q.2) ((λ a, (a, key a)) <$> r)).
    fold (stableSort (λ a b, cmp (key a) (key b)) r).
    by rewrite IH, insertBy_keyed. }
  rewrite <- list_fmap_compose. apply list_fmap_id.
Qed.

Lemma sortKeys_in_range allData fieldIndex l :
  Forall (λ a, (a < length allData)%nat) l →
  sortKeys allData fieldIndex l = Ret ((λ a, (a, cellOf allData fieldIndex a)) <$> l).
Proof.
  induction 1 as [|a r Ha Hr IH]; cbn; [done|].
  rewrite IH. unfold sortKey, cellOf.
  destruct (allData !! a) eqn:Hx; [done|].
  apply lookup_ge_None in Hx. unfold row in *. lia.
Qed.

Lemma sortKeys_out_of_range allData fieldIndex l a :
  a ∈ l → (length allData ≤ a)%nat →
  sortKeys allData fieldIndex l = Raise TypeError.
Proof.
  intros Hin Ha. induction l as [|b r IH]; [by apply elem_of_nil in Hin|].
  cbn. unfold sortKey at 1.
  destruct (allData !! b) as [x|] eqn:Hb; [|done]. cbn.
  apply elem_of_cons in Hin as [->|Hin].
  - apply lookup_lt_Some in Hb. unfold row in *. lia.
  - by rewrite IH.
Qed.

(** The sorted indexes, when every index is the index of a row. *)
Lemma sortIndexes_in_range sortFunction allData fieldIndex allIndexes :
  Forall (λ a, (a < length allData)%nat) allIndexes →
  sortIndexes sortFunction allData fieldIndex allIndexes
  = Ret (stableSort (λ a b, sortFunction (cellOf allData fieldIndex a)
                                         (cellOf allData fieldIndex b))
                    allIndexes).
Proof.
  intros Hr. unfold sortIndexes. case_decide as Hlen.
  - f_equal. destruct allIndexes as [|a [|b r]]; cbn in *; [done..|lia].
  - rewrite sortKeys_in_range by done. cbn. by rewrite stableSort_keyed.
Qed.

Section SortDataset.
Context {G M L : Type}.
Context `{Settings, DataUtils, FilterUtils G L}.

(** The call, once the column is found and the mode is not [UNSORT]. *)
Lemma sortDatasetByColumn_run (w : World.t G M) dataset d column mode i fd :
  World.heap w !! dataset = Some d →
  firstNamed column (Table.fields d) i fd →
  sortByOf mode ≠ SORT_ORDER "UNSORT" →
  sortDatasetByColumn dataset column mode w
  = match sortIndexes (comparatorOf mode) (Table.allData d) (Z.of_nat i)
            (Table.allIndexes d) with
    | Ret sortOrder =>
        Ret (fresh (dom (World.heap w)),
             World.mk
               (<[fresh (dom (World.heap w)) :=
                    Table.set_sortOrder (SortOrderIndexes sortOrder)
                      (Table.set_sortColumn (Some [(column, sortByOf mode)]) d)]>
                  (World.heap w))
               (World.console w))
    | Raise e => Raise e
    | Unmodelled => Unmodelled
    end.
Proof.
  intros E F Hmode. unfold sortDatasetByColumn. js_step.
  unfold findFieldIndex. rewrite (findFieldIndexFrom_first _ _ _ _ 0 F).
  js_step. rewrite decide_False by lia.
  fold (sortByOf mode). rewrite decide_False by done.
  fold (comparatorOf mode). replace (0 + Z.of_nat i) with (Z.of_nat i) by lia.
  unfold mbind, Js_bind, lift.
  by destruct (sortIndexes _ _ _ _).
Qed.

(** X16.  When the column is found, the mode is not [UNSORT] and every
    index of [allIndexes] is the index of a row, [sortDatasetByColumn]
    returns a new object that is the dataset with [sortColumn] set to the
    column and its sort order and [sortOrder] set to a rearrangement of
    [allIndexes]: every index once for each time it is in [allIndexes].  The
    dataset itself stays in the store as it was. *)
Theorem sortDatasetByColumn_permutes (w : World.t G M) dataset d column mode i fd :
  World.heap w !! dataset = Some d →
  firstNamed column (Table.fields d) i fd →
  sortByOf mode ≠ SORT_ORDER "UNSORT" →
  Forall (λ a, (a < length (Table.allData d))%nat) (Table.allIndexes d) →
  ∃ sortOrder,
    sortDatasetByColumn dataset column mode w
    = Ret (fresh (dom (World.heap w)),
           World.mk
             (<[fresh (dom (World.heap w)) :=
                  Table.set_sortOrder (SortOrderIndexes sortOrder)
                    (Table.set_sortColumn (Some [(column, sortByOf mode)]) d)]>
                (World.heap w))
             (World.console w))
    ∧ sortOrder ≡ₚ Table.allIndexes d
    ∧ <[fresh (dom (World.heap w)) :=
          Table.set_sortOrder (SortOrderIndexes sortOrder)
            (Table.set_sortColumn (Some [(column, sortByOf mode)]) d)]>
        (World.heap w) !! dataset = Some d.
Proof.
  intros E F Hmode Hrange.
  rewrite (sortDatasetByColumn_run _ _ _ _ _ _ _ E F Hmode).
  rewrite sortIndexes_in_range by done.
  eexists. split; [done|]. split; [apply stableSort_Permutation|].
  rewrite lookup_insert_ne; [done|]. by eapply fresh_loc_ne.
Qed.

(** X17.  Under the hypotheses of X16, when the comparator of the mode is
    consistent on the cells of the column, the rows are in order along
    [sortOrder]: the comparator is not positive on the cell of an index and
    the cell of any index behind it. *)
Theorem sortDatasetByColumn_sorted (w : World.t G M) dataset d column mode i fd :
  World.heap w !! dataset = Some d →
  firstNamed column (Table.fields d) i fd →
  sortByOf mode ≠ SORT_ORDER "UNSORT" →
  Forall (λ a, (a < length (Table.allData d))%nat) (Table.allIndexes d) →
  consistentOn (comparatorOf mode) (cellOf (Table.allData d) (Z.of_nat i))
    (Table.allIndexes d) →
  ∃ sortOrder,
    sortOutcome (sortDatasetByColumn dataset column mode w)
    = Ret (Some [(column, sortByOf mode)], SortOrderIndexes sortOrder)
    ∧ StronglySorted
        (λ a b, comparatorOf mode (cellOf (Table.allData d) (Z.of_nat i) a)
                                  (cellOf (Table.allData d) (Z.of_nat i) b) ≤ 0)
        sortOrder.
Proof.
  intros E F Hmode Hrange [Hsign Htrans].
  rewrite (sortDatasetByColumn_run _ _ _ _ _ _ _ E F Hmode).
  rewrite sortIndexes_in_range by done.
  eexists. split.
  - unfold sortOutcome. cbn [World.heap]. by rewrite lookup_insert_eq.
  - apply (stableSort_StronglySorted
             (λ a b, comparatorOf mode (cellOf _ _ a) (cellOf _ _ b))).
    + intros a b Ha Hb. pose proof (Hsign b a Hb Ha). lia.
    + exact Htrans.
Qed.

(** X18.  Under the hypotheses of X17, when the rows are already in order
    along [allIndexes], the comparator being not positive on the cells of two
    neighbours, [sortOrder] is [allIndexes]: rows whose cells compare equal
    keep their order. *)
Theorem sortDatasetByColumn_keeps_order (w : World.t G M) dataset d column mode i fd :
  World.heap w !! dataset = Some d →
  firstNamed column (Table.fields d) i fd →
  sortByOf mode ≠ SORT_ORDER "UNSORT" →
  Forall (λ a, (a < length (Table.allData d))%nat) (Table.allIndexes d) →
  consistentOn (comparatorOf mode) (cellOf (Table.allData d) (Z.of_nat i))
    (Table.allIndexes d) →
  Sorted (λ a b, comparatorOf mode (cellOf (Table.allData d) (Z.of_nat i) a)
                                     (cellOf (Table.allData d) (Z.of_nat i) b) ≤ 0)
         (Table.allIndexes d) →
  sortOutcome (sortDatasetByColumn dataset column mode w)
  = Ret (Some [(column, sortByOf mode)], SortOrderIndexes (Table.allIndexes d)).
Proof.
  intros E F Hmode Hrange _ Hsorted.
  rewrite (sortDatasetByColumn_run _ _ _ _ _ _ _ E F Hmode).
  rewrite sortIndexes_in_range by done.
  unfold sortOutcome. cbn [World.heap]. rewrite lookup_insert_eq. cbn.
  by rewrite (stableSort_of_Sorted _ _ Hsorted).
Qed.

(** X19.  A mode that is no truthy entry of [SORT_ORDER] sorts as the mode
    [ASCENDING] does: the two calls return the same. *)
Theorem sortDatasetByColumn_unknown_mode (w : World.t G M) dataset column mode :
  truthy (SORT_ORDER mode) = false →
  sortDatasetByColumn dataset column mode w
  = sortDatasetByColumn dataset column "ASCENDING" w.
Proof.
  intros Hm. unfold sortDatasetByColumn. rewrite Hm.
  by destruct (truthy (SORT_ORDER "ASCENDING")).
Qed.

(** X20.  When [allIndexes] has two or more elements and one of them is
    the index of no row, sorting by a column that is found, in a mode that is
    not [UNSORT], throws a [TypeError]. *)
Theorem sortDatasetByColumn_bad_index (w : World.t G M) dataset d column mode i fd a :
  World.heap w !! dataset = Some d →
  firstNamed column (Table.fields d) i fd →
  sortByOf mode ≠ SORT_ORDER "UNSORT" →
  (2 ≤ length (Table.allIndexes d))%nat →
  a ∈ Table.allIndexes d →
  (length (Table.allData d) ≤ a)%nat →
  sortDatasetByColumn dataset column mode w = Raise TypeError.
Proof.
  intros E F Hmode Hlen Hin Ha.
  rewrite (sortDatasetByColumn_run _ _ _ _ _ _ _ E F Hmode).
  unfold sortIndexes. rewrite decide_False by lia.
  by rewrite (sortKeys_out_of_range _ _ _ a).
Qed.

(** The outcome of sorting reads, of the dataset, the fields, the rows, the
    indexes and the sort state. *)
Lemma sortOutcome_reads (w w' : World.t G M) dataset d d' column mode :
  World.heap w !! dataset = Some d →
  World.heap w' !! dataset = Some d' →
  sameButFilterState d d' →
  sortOutcome (sortDatasetByColumn dataset column mode w')
  = sortOutcome (sortDatasetByColumn dataset column mode w).
Proof.
  intros E E' (_ & _ & _ & _ & Hrows & Hidx & _ & Hfields & _ & _ & Hsc & Hso).
  unfold sortDatasetByColumn.
  erewrite run_bind by by apply load_run.
  erewrite (run_bind _ _ w) by by apply load_run.
  rewrite Hrows, Hidx, Hfields.
  unfold mbind at 1 3, Js_bind, lift.
  destruct (findFieldIndex column (Table.fields d)) as [j| |]; [|done..].
  case_decide.
  - cbn. by rewrite E, E', Hsc, Hso.
  - case_decide.
    + cbn. by rewrite !lookup_insert_eq.
    + unfold mbind, Js_bind, lift.
      destruct (sortIndexes _ _ _ _); [|done..].
      cbn. by rewrite !lookup_insert_eq.
Qed.

(** X21.  Sorting does not depend on the filter state: after any sequence
    of [filterTable] calls on a dataset, [sortDatasetByColumn] leaves the same
    [sortColumn] and [sortOrder] in the dataset it returns, or throws the
    same, as before those calls. *)
Theorem sortDatasetByColumn_ignores_filters (w : World.t G M) dataset d column mode
    (calls : list (list Filter.t * L * option FilterOpt.t)) :
  World.heap w !! dataset = Some d →
  ∃ w',
    filterTableCalls dataset calls w = Ret ((), w')
    ∧ sortOutcome (sortDatasetByColumn dataset column mode w')
      = sortOutcome (sortDatasetByColumn dataset column mode w).
Proof.
  intros E.
  destruct (filterTableCalls_run calls w dataset d E) as (d' & Hrun & F).
  eexists. split; [exact Hrun|].
  eapply sortOutcome_reads; [exact E|apply lookup_insert_eq|exact F].
Qed.

End SortDataset.

(** ** The further properties on the small tables *)

Lemma sample_first_pickup_lat :
  firstNamed "pickup_lat" (Table.fields Sample.table) 1
    (Sample.field "pickup_lat" "real" 1).
Proof.
  split; [reflexivity|]. split; [reflexivity|].
  intros j Hj. destruct j as [|j]; [|lia].
  eexists. split; [reflexivity|discriminate].
Defined.

Lemma sample_first_v :
  firstNamed "v" (Table.fields Sample.table) 0 (Sample.field "v" "integer" 0).
Proof.
  split; [reflexivity|]. split; [reflexivity|]. intros j Hj. lia.
Defined.

Lemma sample_indexes_in_range :
  Forall (λ a, (a < length (Table.allData Sample.table))%nat)
         (Table.allIndexes Sample.table).
Proof. repeat (constructor; [cbn; lia|]). constructor. Defined.

Lemma specDiff_unchanged r :
  diffFilters (FilterUtils := SpecModel.filterUtils) r (Some r)
  = {| Changed.dynamicDomain := false; Changed.cpu := false |}.
Proof.
  cbn. unfold SpecModel.diff, SpecModel.groupChanged. cbn.
  by rewrite !bool_decide_eq_true_2.
Qed.

Lemma specComparator_consistent mode (key : nat → value) l :
  (∀ a, a ∈ l → ∃ n, key a = VNum n) →
  consistentOn (comparatorOf (H := SpecModel.settings) (H0 := SpecModel.dataUtils) mode)
    key l.
Proof.
  intros Hnum.
  assert (∀ m n, SpecModel.compareAscending (VNum m) (VNum n) < 0 ↔ m < n) as Hlt.
  { intros m n. cbn. destruct (Z.compare_spec m n); cbn; lia. }
  assert (∀ m n, 0 < SpecModel.compareAscending (VNum m) (VNum n) ↔ n < m) as Hgt.
  { intros m n. cbn. destruct (Z.compare_spec m n); cbn; lia. }
  assert (∀ m n, SpecModel.compareAscending (VNum m) (VNum n) ≤ 0 ↔ m ≤ n) as Hle.
  { intros m n. cbn. destruct (Z.compare_spec m n); cbn; lia. }
  unfold comparatorOf. split.
  - intros a b Ha Hb. destruct (Hnum a Ha) as [m ->], (Hnum b Hb) as [n ->].
    case_decide; cbn [ascending descending SpecModel.dataUtils];
      unfold SpecModel.compareDescending; rewrite Hlt, Hgt; lia.
  - intros a b c Ha Hb Hc.
    destruct (Hnum a Ha) as [m ->], (Hnum b Hb) as [n ->], (Hnum c Hc) as [k ->].
    case_decide; cbn [ascending descending SpecModel.dataUtils];
      unfold SpecModel.compareDescending; rewrite !Hle; lia.
Qed.

Lemma sample_cells_numbers a :
  a ∈ Table.allIndexes Sample.table →
  ∃ n, cellOf (Table.allData Sample.table) (Z.of_nat 0) a = VNum n.
Proof.
  intros Ha. apply list_elem_of_In in Ha. cbn in Ha.
  destruct Ha as [<-|[<-|[<-|[]]]]; eexists; reflexivity.
Qed.

Lemma lookup_of_present_column_witness :
  World.heap Sample.world !! 0%nat = Some Sample.table
  ∧ firstNamed "pickup_lat" (Table.fields Sample.table) 1
      (Sample.field "pickup_lat" "real" 1)
  ∧ getColumnField 0%nat "pickup_lat" Sample.world
    = Ret (Some (Sample.field "pickup_lat" "real" 1), Sample.world)
  ∧ getColumnFieldIdx 0%nat "pickup_lat" Sample.world = Ret (1, Sample.world)
  ∧ getValue 0%nat "pickup_lat" 2 Sample.world = Ret (VNum 12, Sample.world).
Proof.
  split; [exact sample_table_stored|]. split; [exact sample_first_pickup_lat|].
  pose proof (lookup_of_present_column Sample.world 0%nat Sample.table "pickup_lat"
                1%nat _ sample_table_stored sample_first_pickup_lat)
    as (Hf & Hi & Hv).
  split; [exact Hf|]. split; [exact Hi|].
  exact (Hv 2 [VNum 9; VNum 12; VNum 22] eq_refl).
Defined.

Lemma lookup_across_hole_throws_witness :
  World.heap Cases.holedWorld !! 0%nat = Some Cases.holedTable
  ∧ Table.fields Cases.holedTable !! 1%nat = Some None
  ∧ reaches "pickup_lng" (Table.fields Cases.holedTable) 1
  ∧ getColumnField 0%nat "pickup_lng" Cases.holedWorld = Raise TypeError
  ∧ sortDatasetByColumn 0%nat "pickup_lng" "ASCENDING" Cases.holedWorld
    = Raise TypeError.
Proof.
  assert (World.heap Cases.holedWorld !! 0%nat = Some Cases.holedTable) as E
    by reflexivity.
  assert (Table.fields Cases.holedTable !! 1%nat = Some None) as Hh by reflexivity.
  assert (reaches "pickup_lng" (Table.fields Cases.holedTable) 1) as Hr.
  { intros j Hj. destruct j as [|j]; [|lia].
    eexists. split; [reflexivity|discriminate]. }
  split; [exact E|]. split; [exact Hh|]. split; [exact Hr|].
  pose proof (lookup_across_hole_throws Cases.holedWorld 0%nat Cases.holedTable
                "pickup_lng" 1%nat E Hh Hr) as (Hf & _ & _ & Hs).
  split; [exact Hf|exact (Hs "ASCENDING")].
Defined.

Lemma updateColumnField_then_lookup_witness :
  World.heap Sample.world !! 0%nat = Some Sample.table
  ∧ 0 ≤ 3 ≤ Z.of_nat (length (Table.fields Sample.table))
  ∧ 3 ≤ maxArrayIndex
  ∧ reaches (Field.name (Sample.field "speed" "real" 3)) (Table.fields Sample.table)
      (Z.to_nat 3)
  ∧ ∃ w1,
      updateColumnField 0%nat 3 (Sample.field "speed" "real" 3) Sample.world
      = Ret ((), w1)
      ∧ getColumnField 0%nat "speed" w1 = Ret (Some (Sample.field "speed" "real" 3), w1)
      ∧ getColumnFieldIdx 0%nat "speed" w1 = Ret (3, w1)
      ∧ getValue 0%nat "speed" 1 w1 = Ret (VUndefined, w1).
Proof.
  assert (0 ≤ 3 ≤ Z.of_nat (length (Table.fields Sample.table))) as Hi by (cbn; lia).
  assert (3 ≤ maxArrayIndex) as Hmax by (unfold maxArrayIndex; lia).
  assert (reaches (Field.name (Sample.field "speed" "real" 3))
            (Table.fields Sample.table) (Z.to_nat 3)) as Hr.
  { intros j Hj. destruct j as [|[|[|j]]];
      [eexists; split; [reflexivity|discriminate]..|cbn in Hj; lia]. }
  split; [exact sample_table_stored|]. split; [exact Hi|]. split; [exact Hmax|].
  split; [exact Hr|].
  destruct (updateColumnField_then_lookup Sample.world 0%nat Sample.table 3
              (Sample.field "speed" "real" 3) sample_table_stored Hi Hmax Hr)
    as (w1 & Hu & Hf & Hx & Hv).
  exists w1. split; [exact Hu|]. split; [exact Hf|]. split; [exact Hx|].
  exact (Hv 1 [VNum 5; VNum 11; VNum 21] eq_refl).
Defined.



Lemma filterTable_changes_filter_state_only_witness :
  World.heap Sample.world !! 0%nat = Some Sample.table
  ∧ ∃ d',
      filterTable 0%nat [Sample.cpuRange] () None Sample.world
      = Ret (0%nat, World.mk (<[0%nat := d']> (World.heap Sample.world))
                             (World.console Sample.world))
      ∧ sameButFilterState Sample.table d'.
Proof.
  split; [exact sample_table_stored|].
  destruct (filterTable_changes_filter_state_only Sample.world 0%nat Sample.table
              [Sample.cpuRange] () None sample_table_stored)
    as (d' & Hrun & Hframe & _).
  exists d'. split; [exact Hrun|exact Hframe].
Defined.

Lemma filterTable_unchanged_filters_witness :
  World.heap Cases.filteredWorld !! 0%nat = Some Cases.filteredTable
  ∧ length [Sample.cpuRange] ≠ 0%nat
  ∧ diffFilters
      (getFilterRecord (Table.id Cases.filteredTable) [Sample.cpuRange]
         (default FilterOpt.empty None))
      (Table.filterRecord Cases.filteredTable)
    = {| Changed.dynamicDomain := false; Changed.cpu := false |}
  ∧ ∃ d',
      filterTable 0%nat [Sample.cpuRange] () None Cases.filteredWorld
      = Ret (0%nat, World.mk (<[0%nat := d']> (World.heap Cases.filteredWorld))
                             (World.console Cases.filteredWorld))
      ∧ Table.filteredIndex d' = Table.filteredIndexForDomain Cases.filteredTable
      ∧ Table.filteredIndexForDomain d'
        = Table.filteredIndexForDomain Cases.filteredTable.
Proof.
  assert (World.heap Cases.filteredWorld !! 0%nat = Some Cases.filteredTable) as E
    by reflexivity.
  assert (length [Sample.cpuRange] ≠ 0%nat) as Hl by discriminate.
  assert (diffFilters
            (getFilterRecord (Table.id Cases.filteredTable) [Sample.cpuRange]
               (default FilterOpt.empty None))
            (Table.filterRecord Cases.filteredTable)
          = {| Changed.dynamicDomain := false; Changed.cpu := false |}) as Hd
    by (vm_compute; reflexivity).
  split; [exact E|]. split; [exact Hl|]. split; [exact Hd|].
  exact (filterTable_unchanged_filters Cases.filteredWorld 0%nat Cases.filteredTable
           [Sample.cpuRange] () None E Hl Hd).
Defined.

Lemma filterTable_repeated_witness :
  World.heap Sample.world !! 0%nat = Some Sample.table
  ∧ length [Sample.cpuRange] ≠ 0%nat
  ∧ (∀ r, diffFilters r (Some r)
          = {| Changed.dynamicDomain := false; Changed.cpu := false |})
  ∧ ∃ w1 w2 w3 d2 d3,
      filterTable 0%nat [Sample.cpuRange] () None Sample.world = Ret (0%nat, w1)
      ∧ filterTable 0%nat [Sample.cpuRange] () None w1 = Ret (0%nat, w2)
      ∧ filterTable 0%nat [Sample.cpuRange] () None w2 = Ret (0%nat, w3)
      ∧ World.heap w2 !! 0%nat = Some d2
      ∧ World.heap w3 !! 0%nat = Some d3
      ∧ Table.filteredIndex d3 = Table.filteredIndex d2
      ∧ Table.filteredIndexForDomain d3 = Table.filteredIndexForDomain d2.
Proof.
  assert (length [Sample.cpuRange] ≠ 0%nat) as Hl by discriminate.
  split; [exact sample_table_stored|]. split; [exact Hl|].
  split; [exact specDiff_unchanged|].
  destruct (filterTable_repeated Sample.world 0%nat Sample.table [Sample.cpuRange]
              () None sample_table_stored Hl specDiff_unchanged)
    as (w1 & w2 & w3 & d1 & d2 & d3 & R1 & R2 & R3 & _ & E2 & E3 & _ & _ & I1 & I2).
  exists w1, w2, w3, d2, d3. repeat split; assumption.
Defined.

Lemma filterTableCPU_without_gpu_filter_witness :
  World.heap Sample.world !! 0%nat = Some Sample.table
  ∧ (∀ f, f ∈ [Sample.cpuRange] → Filter.gpu f = false)
  ∧ filterTableCPU 0%nat [Sample.cpuRange] () Sample.world
    = Ret (0%nat,
           World.mk
             (<[0%nat :=
                  Table.set_filterRecordCPU
                    (Some (getFilterRecord (Table.id Sample.table) [Sample.cpuRange]
                             cpuOptions))
                    (Table.set_filteredIdxCPU
                       (Some (if decide (length [Sample.cpuRange] = 0%nat)
                              then Table.allIndexes Sample.table
                              else Table.filteredIndex Sample.table))
                       Sample.table)]> (World.heap Sample.world))
             (World.console Sample.world)).
Proof.
  assert (∀ f, f ∈ [Sample.cpuRange] → Filter.gpu f = false) as Hg.
  { intros f Hin. apply list_elem_of_singleton in Hin. by rewrite Hin. }
  split; [exact sample_table_stored|]. split; [exact Hg|].
  exact (filterTableCPU_without_gpu_filter Sample.world 0%nat Sample.table
           [Sample.cpuRange] () sample_table_stored Hg).
Defined.

Lemma getColumnLayerDomain_unsupported_witness :
  World.heap Sample.world !! 0%nat = Some Sample.table
  ∧ truthy (SCALE_TYPES "cubic") = false
  ∧ getColumnLayerDomain 0%nat (Sample.field "v" "integer" 0) "cubic" Sample.world
    = Raise TypeError.
Proof.
  assert (truthy (SCALE_TYPES "cubic") = false) as Ht by reflexivity.
  split; [exact sample_table_stored|]. split; [exact Ht|].
  exact (getColumnLayerDomain_unsupported Sample.world 0%nat Sample.table
           (Sample.field "v" "integer" 0) "cubic" sample_table_stored Ht).
Defined.


Lemma filter_domain_ignores_filters_witness :
  World.heap Sample.world !! 0%nat = Some Sample.table
  ∧ ∃ w' (r : FieldDomain.t (list value) (list value)),
      filterTableCalls 0%nat [([Sample.cpuRange], (), None)] Sample.world = Ret ((), w')
      ∧ getColumnFilterDomain 0%nat (Sample.field "v" "integer" 0) Sample.world
        = Ret (r, Sample.world)
      ∧ getColumnFilterDomain 0%nat (Sample.field "v" "integer" 0) w' = Ret (r, w').
Proof.
  split; [exact sample_table_stored|].
  exact (filter_domain_ignores_filters Sample.world 0%nat Sample.table
           (Sample.field "v" "integer" 0) [([Sample.cpuRange], (), None)]
           sample_table_stored).
Defined.

Lemma findPointFieldPairs_pairs_witness :
  findPointFieldPairs Sample.tripFields = Ret Cases.tripPairs
  ∧ sublist ((λ p, PointPair.fieldIdx (PointPair.lat p)) <$> Cases.tripPairs)
            (seq 0 (length Sample.tripFields))
  ∧ Forall (pairsFields Sample.tripFields) Cases.tripPairs.
Proof.
  assert (findPointFieldPairs Sample.tripFields = Ret Cases.tripPairs) as Hrun
    by reflexivity.
  split; [exact Hrun|].
  exact (findPointFieldPairs_pairs Sample.tripFields Cases.tripPairs Hrun).
Defined.

Lemma findPointFieldPairs_no_suffix_witness :
  (∀ f q, f ∈ Cases.plainFields → q ∈ TRIP_POINT_FIELDS →
     JsString.endsWith (JsString.toLowerCase (Field.name f)) q.1 = false)
  ∧ findPointFieldPairs Cases.plainFields = Ret [].
Proof.
  assert (∀ f q, f ∈ Cases.plainFields → q ∈ TRIP_POINT_FIELDS →
            JsString.endsWith (JsString.toLowerCase (Field.name f)) q.1 = false)
    as Hno.
  { intros f q Hf Hq. apply list_elem_of_singleton in Hq. rewrite Hq.
    apply list_elem_of_In in Hf. cbn in Hf.
    destruct Hf as [<-|[<-|[]]]; reflexivity. }
  split; [exact Hno|].
  exact (findPointFieldPairs_no_suffix Cases.plainFields Hno).
Defined.

Lemma constructor_establishes_witness :
  Forall (λ q, plainPair q = true) TRIP_POINT_FIELDS
  ∧ ∃ d,
      constructor (L := unit) "k3x9" (Some Sample.info) Sample.data () ()
        Sample.emptyWorld
      = Ret (fresh (dom (World.heap Sample.emptyWorld)),
             World.mk (<[fresh (dom (World.heap Sample.emptyWorld)) := d]>
                         (World.heap Sample.emptyWorld))
                      (World.console Sample.emptyWorld))
      ∧ Table.id d = "trips"
      ∧ Table.allIndexes d = [0; 1; 2]%nat.
Proof.
  assert (Forall (λ q, plainPair q = true) TRIP_POINT_FIELDS) as Hplain
    by (repeat constructor).
  split; [exact Hplain|].
  destruct (constructor_establishes (L := unit) Sample.emptyWorld "k3x9"
              (Some Sample.info) Sample.data () () Hplain)
    as (d & fs & Hrun & _ & Hid & _ & _ & Hidx & _).
  exists d. split; [exact Hrun|]. split; [exact Hid|exact Hidx].
Defined.

Lemma sortDatasetByColumn_permutes_witness :
  World.heap Sample.world !! 0%nat = Some Sample.table
  ∧ firstNamed "v" (Table.fields Sample.table) 0 (Sample.field "v" "integer" 0)
  ∧ sortByOf "DESCENDING" ≠ SORT_ORDER "UNSORT"
  ∧ Forall (λ a, (a < length (Table.allData Sample.table))%nat)
           (Table.allIndexes Sample.table)
  ∧ ∃ sortOrder,
      sortDatasetByColumn 0%nat "v" "DESCENDING" Sample.world
      = Ret (fresh (dom (World.heap Sample.world)),
             World.mk
               (<[fresh (dom (World.heap Sample.world)) :=
                    Table.set_sortOrder (SortOrderIndexes sortOrder)
                      (Table.set_sortColumn (Some [("v", sortByOf "DESCENDING")])
                         Sample.table)]>
                  (World.heap Sample.world))
               (World.console Sample.world))
      ∧ sortOrder ≡ₚ Table.allIndexes Sample.table.
Proof.
  assert (sortByOf "DESCENDING" ≠ SORT_ORDER "UNSORT") as Hm by discriminate.
  split; [exact sample_table_stored|]. split; [exact sample_first_v|].
  split; [exact Hm|]. split; [exact sample_indexes_in_range|].
  destruct (sortDatasetByColumn_permutes Sample.world 0%nat Sample.table "v"
              "DESCENDING" 0%nat _ sample_table_stored sample_first_v Hm
              sample_indexes_in_range) as (l & Hrun & Hperm & _).
  exists l. split; [exact Hrun|exact Hperm].
Defined.

Lemma sortDatasetByColumn_sorted_witness :
  World.heap Sample.world !! 0%nat = Some Sample.table
  ∧ firstNamed "v" (Table.fields Sample.table) 0 (Sample.field "v" "integer" 0)
  ∧ sortByOf "DESCENDING" ≠ SORT_ORDER "UNSORT"
  ∧ Forall (λ a, (a < length (Table.allData Sample.table))%nat)
           (Table.allIndexes Sample.table)
  ∧ consistentOn (comparatorOf "DESCENDING")
      (cellOf (Table.allData Sample.table) (Z.of_nat 0)) (Table.allIndexes Sample.table)
  ∧ ∃ sortOrder,
      sortOutcome (sortDatasetByColumn 0%nat "v" "DESCENDING" Sample.world)
      = Ret (Some [("v", sortByOf "DESCENDING")], SortOrderIndexes sortOrder)
      ∧ StronglySorted (λ a b, comparatorOf "DESCENDING"
                         (cellOf (Table.allData Sample.table) (Z.of_nat 0) a)
                         (cellOf (Table.allData Sample.table) (Z.of_nat 0) b) ≤ 0)
               sortOrder.
Proof.
  assert (sortByOf "DESCENDING" ≠ SORT_ORDER "UNSORT") as Hm by discriminate.
  split; [exact sample_table_stored|]. split; [exact sample_first_v|].
  split; [exact Hm|]. split; [exact sample_indexes_in_range|].
  split; [exact (specComparator_consistent "DESCENDING" _ _ sample_cells_numbers)|].
  exact (sortDatasetByColumn_sorted Sample.world 0%nat Sample.table "v"
           "DESCENDING" 0%nat _ sample_table_stored sample_first_v Hm
           sample_indexes_in_range
           (specComparator_consistent "DESCENDING" _ _ sample_cells_numbers)).
Defined.

Lemma sortDatasetByColumn_keeps_order_witness :
  World.heap Sample.world !! 0%nat = Some Sample.table
  ∧ firstNamed "v" (Table.fields Sample.table) 0 (Sample.field "v" "integer" 0)
  ∧ sortByOf "ASCENDING" ≠ SORT_ORDER "UNSORT"
  ∧ Forall (λ a, (a < length (Table.allData Sample.table))%nat)
           (Table.allIndexes Sample.table)
  ∧ consistentOn (comparatorOf "ASCENDING")
      (cellOf (Table.allData Sample.table) (Z.of_nat 0)) (Table.allIndexes Sample.table)
  ∧ Sorted (λ a b, comparatorOf "ASCENDING"
                     (cellOf (Table.allData Sample.table) (Z.of_nat 0) a)
                     (cellOf (Table.allData Sample.table) (Z.of_nat 0) b) ≤ 0)
           (Table.allIndexes Sample.table)
  ∧ sortOutcome (sortDatasetByColumn 0%nat "v" "ASCENDING" Sample.world)
    = Ret (Some [("v", sortByOf "ASCENDING")],
           SortOrderIndexes (Table.allIndexes Sample.table)).
Proof.
  assert (sortByOf "ASCENDING" ≠ SORT_ORDER "UNSORT") as Hm by discriminate.
  assert (Sorted (λ a b, comparatorOf "ASCENDING"
                           (cellOf (Table.allData Sample.table) (Z.of_nat 0) a)
                           (cellOf (Table.allData Sample.table) (Z.of_nat 0) b) ≤ 0)
                 (Table.allIndexes Sample.table)) as Hs.
  { repeat (constructor; [|try (constructor; by vm_compute)]). constructor. }
  split; [exact sample_table_stored|]. split; [exact sample_first_v|].
  split; [exact Hm|]. split; [exact sample_indexes_in_range|].
  split; [exact (specComparator_consistent "ASCENDING" _ _ sample_cells_numbers)|].
  split; [exact Hs|].
  exact (sortDatasetByColumn_keeps_order Sample.world 0%nat Sample.table "v"
           "ASCENDING" 0%nat _ sample_table_stored sample_first_v Hm
           sample_indexes_in_range
           (specComparator_consistent "ASCENDING" _ _ sample_cells_numbers) Hs).
Defined.

Lemma sortDatasetByColumn_unknown_mode_witness :
  truthy (SORT_ORDER "SIDEWAYS") = false
  ∧ sortDatasetByColumn 0%nat "v" "SIDEWAYS" Sample.world
    = sortDatasetByColumn 0%nat "v" "ASCENDING" Sample.world.
Proof.
  assert (truthy (SORT_ORDER "SIDEWAYS") = false) as Hm by reflexivity.
  split; [exact Hm|].
  exact (sortDatasetByColumn_unknown_mode Sample.world 0%nat "v" "SIDEWAYS" Hm).
Defined.

Lemma sortDatasetByColumn_bad_index_witness :
  World.heap Cases.strayWorld !! 0%nat = Some Cases.strayTable
  ∧ firstNamed "v" (Table.fields Cases.strayTable) 0 (Sample.field "v" "integer" 0)
  ∧ sortByOf "ASCENDING" ≠ SORT_ORDER "UNSORT"
  ∧ (2 ≤ length (Table.allIndexes Cases.strayTable))%nat
  ∧ 7%nat ∈ Table.allIndexes Cases.strayTable
  ∧ (length (Table.allData Cases.strayTable) ≤ 7)%nat
  ∧ sortDatasetByColumn 0%nat "v" "ASCENDING" Cases.strayWorld = Raise TypeError.
Proof.
  assert (World.heap Cases.strayWorld !! 0%nat = Some Cases.strayTable) as E
    by reflexivity.
  assert (sortByOf "ASCENDING" ≠ SORT_ORDER "UNSORT") as Hm by discriminate.
  assert (2 ≤ length (Table.allIndexes Cases.strayTable))%nat as Hl by (cbn; lia).
  assert (7%nat ∈ Table.allIndexes Cases.strayTable) as Hin
    by (apply list_elem_of_further, list_elem_of_here).
  assert (length (Table.allData Cases.strayTable) ≤ 7)%nat as Ha by (cbn; lia).
  split; [exact E|]. split; [exact sample_first_v|]. split; [exact Hm|].
  split; [exact Hl|]. split; [exact Hin|]. split; [exact Ha|].
  exact (sortDatasetByColumn_bad_index Cases.strayWorld 0%nat Cases.strayTable "v"
           "ASCENDING" 0%nat _ 7%nat E sample_first_v Hm Hl Hin Ha).
Defined.

Lemma sortDatasetByColumn_ignores_filters_witness :
  World.heap Sample.world !! 0%nat = Some Sample.table
  ∧ ∃ w',
      filterTableCalls 0%nat [([Sample.cpuRange], (), None)] Sample.world = Ret ((), w')
      ∧ sortOutcome (sortDatasetByColumn 0%nat "v" "DESCENDING" w')
        = sortOutcome (sortDatasetByColumn 0%nat "v" "DESCENDING" Sample.world).
Proof.
  split; [exact sample_table_stored|].
  exact (sortDatasetByColumn_ignores_filters Sample.world 0%nat Sample.table "v"
           "DESCENDING" [([Sample.cpuRange], (), None)] sample_table_stored).
Defined.
